(** * Entity-resolution core of the import script (server/scripts/importAllData.py)

    A shallow embedding of the pure part of the script: the normalizer
    ([normalize_sku], [fingerprint_title], [hash_fingerprint]), the compound
    SKU parser ([parse_compound_sku]), the component matcher
    ([match_component_to_import]), the catalog deduplication of
    [create_component_sql] and the aggregator ([create_boms_and_listings]).

    Text is modelled as [string] over 7-bit ASCII: [str.upper], [str.lower],
    [str.strip] and the regular-expression classes [\s] and [\d] are the
    ASCII restrictions of the Python ones; a byte above 127 is uncased, is
    not a digit and is not white space.  Python's [None] is [None] of
    [option]; integers are unbounded ([N]), and [int] is what Python's
    [int] returns on the runs of digits it reads (at most
    [max_str_digits] of them).  Where a case mapping that lengthens a text
    matters, the title scan is embedded a second time over code points
    ([Points]). *)

From Stdlib Require Import String Ascii NArith ZArith Bool List Lia.
From stdpp Require Import base gmap strings.

Open Scope string_scope.
Open Scope bool_scope.

(** ** Python string primitives *)
Module PyStr.

Definition code (c : ascii) : N := N_of_ascii c.

Definition between (lo hi : N) (c : ascii) : bool :=
  (lo <=? code c)%N && (code c <=? hi)%N.

(** [str.isspace] on one ASCII character: TAB..CR, FS..US and SPACE. *)
Definition isspace (c : ascii) : bool := between 9 13 c || between 28 32 c.

Definition isdigit (c : ascii) : bool := between 48 57 c.
Definition is_az (c : ascii) : bool := between 97 122 c.
Definition is_AZ (c : ascii) : bool := between 65 90 c.

Definition to_upper (c : ascii) : ascii :=
  if is_az c then ascii_of_N (code c - 32) else c.
Definition to_lower (c : ascii) : ascii :=
  if is_AZ c then ascii_of_N (code c + 32) else c.

Fixpoint map_chars (f : ascii -> ascii) (s : string) : string :=
  match s with
  | EmptyString => EmptyString
  | String c r => String (f c) (map_chars f r)
  end.

(** [s.upper()] and [s.lower()]. *)
Definition upper : string -> string := map_chars to_upper.
Definition lower : string -> string := map_chars to_lower.

(** Truth value of a string: [if s:] holds for the non-empty ones. *)
Definition truthy (s : string) : bool :=
  match s with EmptyString => false | String _ _ => true end.

Fixpoint lstrip (s : string) : string :=
  match s with
  | EmptyString => EmptyString
  | String c r => if isspace c then lstrip r else s
  end.

Fixpoint rstrip (s : string) : string :=
  match s with
  | EmptyString => EmptyString
  | String c r =>
      match rstrip r with
      | EmptyString => if isspace c then EmptyString else String c EmptyString
      | r' => String c r'
      end
  end.

(** [s.strip()]. *)
Definition strip (s : string) : string := rstrip (lstrip s).

(** [s.startswith(p)]. *)
Fixpoint startswith (s p : string) : bool :=
  match p, s with
  | EmptyString, _ => true
  | String _ _, EmptyString => false
  | String a p', String b s' => Ascii.eqb a b && startswith s' p'
  end.

(** [needle in hay]: [needle] occurs in [hay] as a contiguous run. *)
Fixpoint contains (needle hay : string) : bool :=
  startswith hay needle ||
  match hay with
  | EmptyString => false
  | String _ r => contains needle r
  end.

(** The slices [s[n:]] and [s[:n]]. *)
Fixpoint slice_from (n : nat) (s : string) : string :=
  match n, s with
  | O, _ => s
  | S _, EmptyString => EmptyString
  | S n', String _ r => slice_from n' r
  end.

Fixpoint slice_to (n : nat) (s : string) : string :=
  match n, s with
  | O, _ => EmptyString
  | S _, EmptyString => EmptyString
  | S n', String c r => String c (slice_to n' r)
  end.

Fixpoint rev_onto (acc s : string) : string :=
  match s with
  | EmptyString => acc
  | String c r => rev_onto (String c acc) r
  end.

Definition reverse (s : string) : string := rev_onto EmptyString s.

Fixpoint all_chars (p : ascii -> bool) (s : string) : bool :=
  match s with
  | EmptyString => true
  | String c r => p c && all_chars p r
  end.

(** [int(s)] for a run of ASCII digits. *)
Fixpoint int_from (acc : N) (s : string) : N :=
  match s with
  | EmptyString => acc
  | String c r => int_from (acc * 10 + (code c - 48))%N r
  end.

Definition int (s : string) : N := int_from 0%N s.

End PyStr.
Import PyStr.

(** ** Normalizer *)

(** [normalize_sku]: [None] for a falsy argument, else [str(sku).strip().upper()]. *)
Definition normalize_sku (sku : option string) : option string :=
  match sku with
  | None => None
  | Some s => if truthy s then Some (upper (strip s)) else None
  end.

(** [re.sub(r'[^a-z0-9\s]', ' ', fp)]: every character outside the class
    becomes one space. *)
Definition sub_special (c : ascii) : ascii :=
  if is_az c || isdigit c || isspace c then c else " "%char.

(** [re.sub(r'\s+', ' ', fp)]: the scan replaces each maximal run of white
    space by one space; [in_run] tells that the previous character was part
    of the run being replaced. *)
Fixpoint sub_spaces (in_run : bool) (s : string) : string :=
  match s with
  | EmptyString => EmptyString
  | String c r =>
      if isspace c
      then if in_run then sub_spaces true r else String " " (sub_spaces true r)
      else String c (sub_spaces false r)
  end.

Definition fingerprint_title (title : option string) : option string :=
  match title with
  | None => None
  | Some t =>
      if truthy t then
        let fp := lower t in
        let fp := map_chars sub_special fp in
        let fp := strip (sub_spaces false fp) in
        Some fp
      else None
  end.

Section Hash.
(** [hashlib.sha256(fp.encode()).hexdigest()], a library function. *)
Variable sha256_hexdigest : string -> string.

Definition hash_fingerprint (fp : option string) : option string :=
  match fp with
  | None => None
  | Some f => if truthy f then Some (sha256_hexdigest f) else None
  end.
End Hash.

(** ** Compound SKU parser *)

Definition is_joiner (c : ascii) : bool := Ascii.eqb c "+" || Ascii.eqb c "/".
Definition is_x (c : ascii) : bool := Ascii.eqb c "x" || Ascii.eqb c "X".
Definition is_newline (c : ascii) : bool := Ascii.eqb c "010".
Definition is_dot (c : ascii) : bool := negb (is_newline c).

(** [re.split(r'[+/]', sku)]: the pieces between the joiners, empty ones
    included. *)
Fixpoint re_split (s : string) : list string :=
  match s with
  | EmptyString => [EmptyString]
  | String c r =>
      if is_joiner c then EmptyString :: re_split r
      else match re_split r with
           | h :: t => String c h :: t
           | [] => [String c EmptyString]
           end
  end.

(** Greedy [\d+]: the longest run of digits at the front, and what follows. *)
Fixpoint span_digits (s : string) : string * string :=
  match s with
  | EmptyString => (EmptyString, EmptyString)
  | String c r =>
      if isdigit c
      then let (d, t) := span_digits r in (String c d, t)
      else (EmptyString, s)
  end.

(** [$] without MULTILINE matches at the end of the text or just before a
    newline that ends it; no pattern element below matches a newline, so a
    match of [...$] is a match of the whole text less one final newline. *)
Fixpoint before_eol (s : string) : string :=
  match s with
  | EmptyString => EmptyString
  | String c r =>
      match r with
      | EmptyString => if is_newline c then EmptyString else s
      | String _ _ => String c (before_eol r)
      end
  end.

(** [re.match(r'^(\d+)x(.+)$', part, re.IGNORECASE)]: groups 1 and 2. *)
Definition match_qty_prefix (part : string) : option (string * string) :=
  let (digits, t) := span_digits (before_eol part) in
  match digits, t with
  | String _ _, String c rest =>
      if is_x c && truthy rest && all_chars is_dot rest
      then Some (digits, rest) else None
  | _, _ => None
  end.

(** [re.match(r'^(.+)\(x(\d+)\)$', part, re.IGNORECASE)]: groups 1 and 2.
    The text is read from its end: [)], the digits, [x], [(], and a
    non-empty rest without newline. *)
Definition match_qty_suffix (part : string) : option (string * string) :=
  match reverse (before_eol part) with
  | String close r =>
      let (digits_rev, t) := span_digits r in
      match digits_rev, t with
      | String _ _, String c (String open rest_rev) =>
          if Ascii.eqb close ")" && is_x c && Ascii.eqb open "("
             && truthy rest_rev && all_chars is_dot rest_rev
          then Some (reverse rest_rev, reverse digits_rev) else None
      | _, _ => None
      end
  | EmptyString => None
  end.

(** The body of the loop for one non-empty, stripped part. *)
Definition parse_part (part : string) : string * N :=
  match match_qty_prefix part with
  | Some (digits, rest) => (strip rest, int digits)
  | None =>
      match match_qty_suffix part with
      | Some (rest, digits) => (strip rest, int digits)
      | None => (part, 1%N)
      end
  end.

Fixpoint parse_parts (parts : list string) : list (string * N) :=
  match parts with
  | [] => []
  | part :: rest =>
      let part := strip part in
      if truthy part then parse_part part :: parse_parts rest
      else parse_parts rest
  end.

Definition parse_compound_sku (sku : option string) : list (string * N) :=
  match sku with
  | None => []
  | Some s => if truthy s then parse_parts (re_split s) else []
  end.

(** ** Records *)

Record component := Component {
  internal_sku : string;
  description : string;
  brand : string;
  cost_ex_vat_pence : Z;
  is_active : bool;
  source_file : string
}.

Record listing := Listing {
  item_name : string;
  seller_sku : string;
  asin : option string;
  price_pence : Z;
  fingerprint : option string;
  fingerprint_hash : option string
}.

Record bom := Bom {
  bundle_sku : string;
  bom_description : string;
  bom_is_active : bool
}.

Record bom_component := BomComponent {
  bom_sku : string;
  component_sku : string;
  qty_required : N
}.

Record listing_memory_entry := ListingMemory {
  lm_asin : option string;
  lm_sku : string;
  title_fingerprint : option string;
  title_fingerprint_hash : option string;
  lm_bom_sku : string;
  resolution_source : string
}.

Record unmatched_record := Unmatched {
  um_seller_sku : string;
  um_item_name : string;
  um_asin : option string
}.

(** ** Component matcher *)

(** A loop that returns from the function at its first hit, followed by the
    code after the loop. *)
Definition or_else {A} (first : option A) (next : option A) : option A :=
  match first with
  | Some a => Some a
  | None => next
  end.
Notation "a 'orelse' b" := (or_else a b) (at level 60, right associativity).

(** [for comp in all_components: if comp['internal_sku'].upper() == target:
    return comp['internal_sku']]. *)
Fixpoint scan_equal (target : string) (all_components : list component)
  : option string :=
  match all_components with
  | [] => None
  | comp :: rest =>
      if String.eqb (upper (internal_sku comp)) target
      then Some (internal_sku comp)
      else scan_equal target rest
  end.

Fixpoint scan_partial (pattern_upper : string) (all_components : list component)
  : option string :=
  match all_components with
  | [] => None
  | comp :: rest =>
      let sku_upper := upper (internal_sku comp) in
      if contains pattern_upper sku_upper || contains sku_upper pattern_upper
      then Some (internal_sku comp)
      else scan_partial pattern_upper rest
  end.

Definition prefixes : list string := ["MAK"; "DEW"; "MAKITA"; "DEWALT"].

Fixpoint scan_prefixes (pattern_upper : string) (ps : list string)
    (all_components : list component) : option string :=
  match ps with
  | [] => None
  | prefix :: rest =>
      (if negb (startswith pattern_upper prefix)
       then scan_equal (prefix ++ pattern_upper) all_components
       else None)
      orelse
      (if startswith pattern_upper prefix
       then scan_equal (slice_from (String.length prefix) pattern_upper)
                       all_components
       else None)
      orelse scan_prefixes pattern_upper rest all_components
  end.

Definition match_component_to_import (component_pattern : string)
    (all_components : list component) : option string :=
  let pattern_upper := upper component_pattern in
  scan_equal pattern_upper all_components
  orelse scan_partial pattern_upper all_components
  orelse scan_prefixes pattern_upper prefixes all_components.

(** ** Catalog deduplication (the loop of [create_component_sql]) *)

Fixpoint dedup_from (seen_skus : gset string) (components : list component)
  : list component :=
  match components with
  | [] => []
  | comp :: rest =>
      let sku_upper := upper (internal_sku comp) in
      if bool_decide (sku_upper ∈ seen_skus)
      then dedup_from seen_skus rest
      else comp :: dedup_from ({[sku_upper]} ∪ seen_skus) rest
  end.

Definition unique_components (components : list component) : list component :=
  dedup_from ∅ components.

(** ** Resolution aggregator ([create_boms_and_listings]) *)

(** The four lists the function builds and returns. *)
Record outputs := Outputs {
  boms : list bom;
  bom_components_list : list bom_component;
  listing_memory : list listing_memory_entry;
  unmatched : list unmatched_record
}.

Definition no_outputs : outputs := Outputs [] [] [] [].

(** [for pattern, qty in parsed]: a reference is kept when the matcher's
    answer is truthy. *)
Fixpoint match_parsed (parsed : list (string * N))
    (all_components : list component) : list (string * N) :=
  match parsed with
  | [] => []
  | (pattern, qty) :: rest =>
      match match_component_to_import pattern all_components with
      | Some matched_sku =>
          if truthy matched_sku
          then (matched_sku, qty) :: match_parsed rest all_components
          else match_parsed rest all_components
      | None => match_parsed rest all_components
      end
  end.

(** The title scan run when [matched_components] is empty; it stops at the
    first component it accepts. *)
Fixpoint title_scan (item_name : string) (all_components : list component)
  : list (string * N) :=
  match all_components with
  | [] => []
  | comp :: rest =>
      if truthy (description comp) && truthy item_name then
        let comp_desc_upper := upper (description comp) in
        let item_upper := upper item_name in
        if (10 <? String.length comp_desc_upper)%nat
           && (contains comp_desc_upper item_upper
               || contains item_upper comp_desc_upper)
        then [(internal_sku comp, 1%N)]
        else title_scan item_name rest
      else title_scan item_name rest
  end.

(** [matched_components] of one listing at the end of both phases. *)
Definition matched_components (l : listing) (all_components : list component)
  : list (string * N) :=
  let parsed := parse_compound_sku (Some (seller_sku l)) in
  match match_parsed parsed all_components with
  | [] => title_scan (item_name l) all_components
  | matched => matched
  end.

Definition bom_of (l : listing) : bom :=
  {| bundle_sku := seller_sku l;
     bom_description :=
       if truthy (item_name l) then slice_to 500 (item_name l) else "";
     bom_is_active := true |}.

Definition links_of (l : listing) (matched : list (string * N))
  : list bom_component :=
  map (fun m => {| bom_sku := seller_sku l;
                   component_sku := fst m;
                   qty_required := snd m |}) matched.

Definition unmatched_of (l : listing) : unmatched_record :=
  {| um_seller_sku := seller_sku l;
     um_item_name := item_name l;
     um_asin := asin l |}.

Definition memory_of (l : listing) : listing_memory_entry :=
  {| lm_asin := asin l;
     lm_sku := seller_sku l;
     title_fingerprint := fingerprint l;
     title_fingerprint_hash := fingerprint_hash l;
     lm_bom_sku := seller_sku l;
     resolution_source := "IMPORT" |}.

(** One turn of [for listing in listings], appending to the four lists. *)
Definition process_listing (all_components : list component)
    (out : outputs) (l : listing) : outputs :=
  let matched := matched_components l all_components in
  {| boms := boms out ++ [bom_of l];
     bom_components_list := bom_components_list out ++ links_of l matched;
     listing_memory := listing_memory out ++ [memory_of l];
     unmatched :=
       match matched with
       | [] => unmatched out ++ [unmatched_of l]
       | _ :: _ => unmatched out
       end |}.

Definition create_boms_and_listings (listings : list listing)
    (all_components : list component) : outputs :=
  fold_left (process_listing all_components) listings no_outputs.

(** ** Listing rows ([load_amazon_listings], after the file is read) *)
Section Rows.
Variable sha256_hexdigest : string -> string.

(** One row of the report, its cells already text and its price already
    converted; [None] when the row is skipped. *)
Definition listing_of_row (item_name_cell seller_sku_cell asin_cell
    status_cell : string) (price_pence : Z) : option listing :=
  let item_name := strip item_name_cell in
  let seller_sku := strip seller_sku_cell in
  let asin := strip asin_cell in
  let status := strip status_cell in
  if negb (truthy item_name) || String.eqb item_name "nan" then None
  else if negb (truthy seller_sku) || String.eqb seller_sku "nan" then None
  else if String.eqb (lower status) "inactive" then None
  else Some {| item_name := item_name;
               seller_sku := seller_sku;
               asin := if String.eqb asin "nan" then None else Some asin;
               price_pence := price_pence;
               fingerprint := fingerprint_title (Some item_name);
               fingerprint_hash :=
                 hash_fingerprint sha256_hexdigest
                   (fingerprint_title (Some item_name)) |}.
End Rows.

(** ** The title scan over code points

    What the strings above cannot show: [str.upper] can lengthen a text
    (['ß'.upper()] is ['SS']) and [len] counts code points.  The title scan
    of [create_boms_and_listings] is embedded a second time over lists of
    code points, with the case mapping of the ASCII letters and of U+00DF;
    every other code point is left as it is. *)
Module Points.

Definition text := list N.

(** [c.upper()] for one code point. *)
Definition upper_point (c : N) : text :=
  if (97 <=? c)%N && (c <=? 122)%N then [(c - 32)%N]
  else if (c =? 223)%N then [83%N; 83%N]
  else [c].

Definition upper (t : text) : text := flat_map upper_point t.

Definition truthy (t : text) : bool :=
  match t with [] => false | _ :: _ => true end.

Fixpoint startswith (s p : text) : bool :=
  match p, s with
  | [], _ => true
  | _ :: _, [] => false
  | a :: p', b :: s' => (a =? b)%N && startswith s' p'
  end.

(** [needle in hay]. *)
Fixpoint contains (needle hay : text) : bool :=
  startswith hay needle ||
  match hay with
  | [] => false
  | _ :: r => contains needle r
  end.

(** The loop over [all_components], an entry being its SKU and its
    description. *)
Fixpoint title_scan (item_name : text) (all_components : list (string * text))
  : list (string * N) :=
  match all_components with
  | [] => []
  | (sku, description) :: rest =>
      if truthy description && truthy item_name then
        let comp_desc_upper := upper description in
        let item_upper := upper item_name in
        if (10 <? List.length comp_desc_upper)%nat
           && (contains comp_desc_upper item_upper
               || contains item_upper comp_desc_upper)
        then [(sku, 1%N)]
        else title_scan item_name rest
      else title_scan item_name rest
  end.


Definition title_overlap (title : text) (entry : string * text) : bool :=
  (10 <? List.length (upper (snd entry)))%nat
  && (contains (upper (snd entry)) (upper title)
      || contains (upper title) (upper (snd entry))).


(** The code points of a string of the model above. *)
Fixpoint of_string (s : string) : text :=
  match s with
  | EmptyString => []
  | String c r => code c :: of_string r
  end.


End Points.

(** ** Notions used to state the properties *)

(** An alphanumeric character: a letter of either case or a digit. *)
Definition is_alnum (c : ascii) : bool := is_az c || is_AZ c || isdigit c.

Definition is_zero_digit (c : ascii) : bool := Ascii.eqb c "0".

(** The digits of the quantity marker of a part, if it carries one: those of
    the prefix shape, else those of the suffix shape. *)
Definition quantity_digits (part : string) : option string :=
  match match_qty_prefix part with
  | Some (digits, _) => Some digits
  | None =>
      match match_qty_suffix part with
      | Some (_, digits) => Some digits
      | None => None
      end
  end.

(** The matching tiers, each a test on an uppercased catalog SKU, in their
    order of priority: exact, containment in either direction, then for
    each prefix the pattern with the prefix added and the pattern with the
    prefix stripped. *)
Definition tier := string -> bool.

Definition exact_tier (pattern_upper : string) : tier :=
  fun sku_upper => String.eqb sku_upper pattern_upper.

Definition containment_tier (pattern_upper : string) : tier :=
  fun sku_upper =>
    contains pattern_upper sku_upper || contains sku_upper pattern_upper.

Definition add_prefix_tier (pattern_upper prefix : string) : tier :=
  fun sku_upper =>
    negb (startswith pattern_upper prefix)
    && String.eqb sku_upper (prefix ++ pattern_upper).

Definition strip_prefix_tier (pattern_upper prefix : string) : tier :=
  fun sku_upper =>
    startswith pattern_upper prefix
    && String.eqb sku_upper (slice_from (String.length prefix) pattern_upper).

Definition prefix_tiers (pattern_upper : string) (ps : list string) : list tier :=
  flat_map (fun prefix => [add_prefix_tier pattern_upper prefix;
                           strip_prefix_tier pattern_upper prefix]) ps.

Definition tiers (pattern_upper : string) : list tier :=
  exact_tier pattern_upper :: containment_tier pattern_upper
  :: prefix_tiers pattern_upper ["MAK"; "DEW"; "MAKITA"; "DEWALT"].

(** The SKU of the first catalog entry, in catalog order, that passes a tier. *)
Definition first_hit (t : tier) (catalog : list component) : option string :=
  option_map internal_sku
    (List.find (fun comp => t (upper (internal_sku comp))) catalog).

(** The first hit of the first tier that has one. *)
Fixpoint first_tier (ts : list tier) (catalog : list component) : option string :=
  match ts with
  | [] => None
  | t :: rest =>
      match first_hit t catalog with
      | Some sku => Some sku
      | None => first_tier rest catalog
      end
  end.

(** The acceptance test of the title scan: the description in upper case is
    longer than 10 characters and, both in upper case, the description
    contains the title or the title the description. *)
Definition title_overlap (title : string) (comp : component) : bool :=
  (10 <? String.length (upper (description comp)))%nat
  && (contains (upper (description comp)) (upper title)
      || contains (upper title) (upper (description comp))).

(** The first catalog entry, in catalog order, that passes [title_overlap],
    with quantity 1; nothing when there is none. *)
Definition title_pick (title : string) (catalog : list component)
  : list (string * N) :=
  match List.find (title_overlap title) catalog with
  | Some comp => [(internal_sku comp, 1%N)]
  | None => []
  end.


(** Catalog entries that share an uppercased SKU share their description. *)
Definition descriptions_agree (catalog : list component) : bool :=
  forallb (fun c1 =>
    forallb (fun c2 =>
      implb (String.eqb (upper (internal_sku c1)) (upper (internal_sku c2)))
            (String.eqb (description c1) (description c2)))
      catalog)
    catalog.

(** Sample data. *)
Module Sample.
Definition entry (sku desc : string) : component :=
  Component sku desc "Makita" 0 true "MAK".
Definition row (title sku : string) : listing :=
  Listing title sku None 0 None None.

Definition combi_catalog : list component :=
  [ entry "A1" "Short"; entry "B2" "MAKITA DRILL 18V COMBI KIT";
    entry "C3" "Makita Drill 18V Combi Kit 2" ].

(** Two entries with the same SKU up to case and different descriptions. *)
Definition twin_catalog : list component :=
  [ entry "ABC" ""; entry "abc" "LONG DESCRIPTION XYZ"; entry "BL1850" "" ].
Definition twin_listing : listing := row "Long description" "ZZZ".

(** Two entries with the same SKU up to case and the same description. *)
Definition agreeing_catalog : list component :=
  [ entry "ABC" "LONG DESCRIPTION XYZ"; entry "abc" "LONG DESCRIPTION XYZ";
    entry "BL1850" "" ].
End Sample.

(** Shape of a fingerprint: only lower-case letters, digits and white space
    ([fingerprint_char]), every white space a single space that no white
    space follows ([single_spaced]). *)
Definition fingerprint_char (c : ascii) : bool :=
  is_az c || isdigit c || isspace c.

Definition leading_space (s : string) : bool :=
  match s with
  | EmptyString => false
  | String c _ => isspace c
  end.

Fixpoint single_spaced (s : string) : bool :=
  match s with
  | EmptyString => true
  | String c r =>
      (if isspace c then Ascii.eqb c " " && negb (leading_space r) else true)
      && single_spaced r
  end.

(** The letters and digits of a title, in lower case: what is left of it
    once punctuation, spacing and letter case are set aside. *)
Fixpoint alnum_content (s : string) : string :=
  match s with
  | EmptyString => EmptyString
  | String c r =>
      if is_alnum c then String (to_lower c) (alnum_content r)
      else alnum_content r
  end.

(** Two titles differ only by punctuation, casing or spacing. *)
Definition differ_only_by_punctuation_casing_spacing (s t : string) : Prop :=
  alnum_content s = alnum_content t.

(** The runs of letters and digits of a title, in lower case, cut at every
    other character; [tokens] keeps the empty runs, [words] drops them. *)
Fixpoint tokens (s : string) : list string :=
  match s with
  | EmptyString => [EmptyString]
  | String c r =>
      if is_alnum c then
        match tokens r with
        | h :: t => String (to_lower c) h :: t
        | [] => [String (to_lower c) EmptyString]
        end
      else EmptyString :: tokens r
  end.

Definition words (s : string) : list string := List.filter truthy (tokens s).

(** [sep_join] puts one space before each word; [join_words] is
    [' '.join(ws)]. *)
Fixpoint sep_join (ws : list string) : string :=
  match ws with
  | [] => EmptyString
  | w :: rest => String " " (w ++ sep_join rest)
  end.

Definition join_words (ws : list string) : string :=
  match ws with
  | [] => EmptyString
  | w :: rest => w ++ sep_join rest
  end.

(** What the matcher answers for one parsed reference, as the aggregator
    keeps it: the answered SKU with the reference's quantity when the
    answer is a non-empty SKU, nothing otherwise. *)
Definition answer_of (catalog : list component) (ref : string * N)
  : list (string * N) :=
  match match_component_to_import (fst ref) catalog with
  | Some sku => if truthy sku then [(sku, snd ref)] else []
  | None => []
  end.

(** The answered references of a listing, in the order of its SKU. *)
Definition answered_references (l : listing) (catalog : list component)
  : list (string * N) :=
  flat_map (answer_of catalog) (parse_compound_sku (Some (seller_sku l))).

(** A listing for which both phases found nothing. *)
Definition no_match (all_components : list component) (l : listing) : bool :=
  match matched_components l all_components with
  | [] => true
  | _ :: _ => false
  end.

(** ** Component rows ([load_cost_files], after a file is read) *)

Definition BRAND_MAP : gmap string string :=
  list_to_map [("MAK", "Makita"); ("DEW", "DeWalt"); ("TIMCO", "TIMCO")].

(** One row of a cost file, its cells already text and its cost already
    converted to pence; [None] when the row is skipped. *)
Definition component_of_row (prefix stock_code_cell description_cell : string)
    (cost_pence : Z) : option component :=
  let stock_code := strip stock_code_cell in
  let description := strip description_cell in
  if negb (truthy stock_code) || String.eqb stock_code "nan" then None
  else Some {| internal_sku := stock_code;
               description :=
                 if String.eqb description "nan" then "" else description;
               brand := default "Unknown" (BRAND_MAP !! prefix);
               cost_ex_vat_pence := cost_pence;
               is_active := true;
               source_file := prefix |}.

(** The rows of one file, in order, appended to [all_components]. *)
Fixpoint components_of_rows (prefix : string)
    (rows : list (string * string * Z)) : list component :=
  match rows with
  | [] => []
  | (stock_code_cell, description_cell, cost_pence) :: rest =>
      match component_of_row prefix stock_code_cell description_cell
                             cost_pence with
      | Some comp => comp :: components_of_rows prefix rest
      | None => components_of_rows prefix rest
      end
  end.

(** ** SQL text: the quoted fields of the value rows *)

Definition is_quote (c : ascii) : bool := Ascii.eqb c "'".

(** [s.replace("'", "''")]. *)
Fixpoint replace_quote (s : string) : string :=
  match s with
  | EmptyString => EmptyString
  | String c r =>
      if is_quote c then String "'" (String "'" (replace_quote r))
      else String c (replace_quote r)
  end.

(** The fields [sku], [desc] and [brand] of a row of [create_component_sql]. *)
Definition component_sql_fields (comp : component) : string * string * string :=
  (replace_quote (internal_sku comp),
   slice_to 500 (replace_quote (description comp)),
   replace_quote (brand comp)).

(** The fields [sku] and [desc] of a row of [create_bom_sql]. *)
Definition bom_sql_fields (b : bom) : string * string :=
  (replace_quote (bundle_sku b), replace_quote (bom_description b)).

(** The fields [bom_sku] and [comp_sku] of a row of
    [create_bom_components_sql]. *)
Definition bom_component_sql_fields (bc : bom_component) : string * string :=
  (replace_quote (bom_sku bc), replace_quote (component_sku bc)).

(** ** Further notions *)

(** The text a SQL string literal with this body stands for: each doubled
    quote is one quote; [None] when a quote is not doubled, which ends the
    literal early. *)
Fixpoint sql_unquote (body : string) : option string :=
  match body with
  | EmptyString => Some EmptyString
  | String c r =>
      if is_quote c then
        match r with
        | String c' r' =>
            if is_quote c' then option_map (String "'") (sql_unquote r')
            else None
        | EmptyString => None
        end
      else option_map (String c) (sql_unquote r)
  end.

Fixpoint repeat_char (c : ascii) (n : nat) : string :=
  match n with
  | O => EmptyString
  | S n' => String c (repeat_char c n')
  end.

(** No leading and no trailing white space. *)
Definition trailing_space (s : string) : bool := leading_space (reverse s).

(** A character of a fingerprint word: a lower-case letter or a digit. *)
Definition is_word_char (c : ascii) : bool := is_az c || isdigit c.

(** Two adjacent spaces somewhere in the text. *)
Fixpoint double_space (s : string) : bool :=
  match s with
  | EmptyString => false
  | String c r =>
      (Ascii.eqb c " " && match r with
                          | String c' _ => Ascii.eqb c' " "
                          | EmptyString => false
                          end)
      || double_space r
  end.

(** A part as the loop sees it: stripped and not empty. *)
Definition stripped (s : string) : Prop :=
  s <> "" /\ leading_space s = false /\ rstrip s = s.

(** How many characters of a text pass a test. *)
Fixpoint count_chars (p : ascii -> bool) (s : string) : nat :=
  match s with
  | EmptyString => O
  | String c r => (if p c then 1 else 0) + count_chars p r
  end.

(** A character of 7-bit ASCII. *)
Definition is_ascii (c : ascii) : bool := (code c <? 128)%N.


(** The uppercased SKUs of a catalog, in order. *)
Definition sku_keys (catalog : list component) : list string :=
  map (fun comp => upper (internal_sku comp)) catalog.

(** * Properties *)

(** ** Characters *)

Ltac ascii_cases c :=
  destruct c as [[] [] [] [] [] [] [] []]; vm_compute; try reflexivity;
  try discriminate; try tauto.

Lemma isspace_to_upper c : isspace (to_upper c) = isspace c.
Proof. ascii_cases c. Qed.

Lemma to_upper_idem c : to_upper (to_upper c) = to_upper c.
Proof. ascii_cases c. Qed.

Lemma isdigit_code c : isdigit c = true -> (code c - 48 = 0)%N -> c = "0"%char.
Proof. ascii_cases c. Qed.

Lemma not_alnum_special c :
  is_alnum c = false -> isspace (sub_special (to_lower c)) = true.
Proof. ascii_cases c. Qed.

Lemma alnum_kept c :
  is_alnum c = true ->
  sub_special (to_lower c) = to_lower c /\ isspace (to_lower c) = false.
Proof. ascii_cases c; intros; split; reflexivity || discriminate. Qed.

(** ** Strings *)

Lemma truthy_true s : truthy s = true <-> s <> "".
Proof. destruct s; simpl; split; congruence. Qed.

Lemma truthy_false s : truthy s = false <-> s = "".
Proof. destruct s; simpl; split; congruence. Qed.

Lemma all_chars_impl (p q : ascii -> bool) s :
  (forall c, p c = true -> q c = true) ->
  all_chars p s = true -> all_chars q s = true.
Proof.
  intros Hpq. induction s as [|c r IH]; simpl; [reflexivity|].
  rewrite !andb_true_iff. intros [Hc Hr]. split; auto.
Qed.

Lemma all_chars_map (p : ascii -> bool) f s :
  all_chars p (map_chars f s) = all_chars (fun c => p (f c)) s.
Proof. induction s as [|c r IH]; simpl; [reflexivity|]. now rewrite IH. Qed.

Lemma all_chars_lstrip p s : all_chars p s = true -> all_chars p (lstrip s) = true.
Proof.
  induction s as [|c r IH]; simpl; [reflexivity|].
  rewrite andb_true_iff. intros [Hc Hr].
  destruct (isspace c); [now apply IH|]. simpl. now rewrite Hc, Hr.
Qed.

Lemma all_chars_rstrip p s : all_chars p s = true -> all_chars p (rstrip s) = true.
Proof.
  induction s as [|c r IH]; simpl; [reflexivity|].
  rewrite andb_true_iff. intros [Hc Hr]. specialize (IH Hr).
  destruct (rstrip r) as [|c' r'].
  - destruct (isspace c); simpl; [reflexivity|]. now rewrite Hc.
  - change (all_chars p (String c (String c' r'))) with
      (p c && all_chars p (String c' r')). now rewrite Hc, IH.
Qed.

Lemma all_chars_strip p s : all_chars p s = true -> all_chars p (strip s) = true.
Proof. intros H. now apply all_chars_rstrip, all_chars_lstrip. Qed.

Lemma all_chars_rev_onto p acc s :
  all_chars p (rev_onto acc s) = all_chars p s && all_chars p acc.
Proof.
  revert acc. induction s as [|c r IH]; intros acc; simpl; [reflexivity|].
  rewrite IH. simpl. destruct (p c), (all_chars p r), (all_chars p acc); reflexivity.
Qed.

Lemma all_chars_reverse p s : all_chars p (reverse s) = all_chars p s.
Proof. unfold reverse. rewrite all_chars_rev_onto. simpl. apply andb_true_r. Qed.

Lemma rstrip_spaces s : all_chars isspace s = true -> rstrip s = "".
Proof.
  induction s as [|c r IH]; simpl; [reflexivity|].
  rewrite andb_true_iff. intros [Hc Hr]. now rewrite (IH Hr), Hc.
Qed.

Lemma strip_spaces s : all_chars isspace s = true -> strip s = "".
Proof. intros H. unfold strip. now apply rstrip_spaces, all_chars_lstrip. Qed.

Lemma rstrip_empty s : rstrip s = "" -> all_chars isspace s = true.
Proof.
  induction s as [|c r IH]; simpl; [reflexivity|].
  destruct (rstrip r) as [|c' r']; [|discriminate].
  destruct (isspace c); [|discriminate]. intros _. now apply IH.
Qed.

Lemma lstrip_spaces s : all_chars isspace (lstrip s) = true -> all_chars isspace s = true.
Proof.
  induction s as [|c r IH]; simpl; [reflexivity|].
  destruct (isspace c) eqn:Hc; simpl; [exact IH|]. now rewrite Hc.
Qed.

Lemma strip_empty s : strip s = "" <-> all_chars isspace s = true.
Proof.
  split; [|apply strip_spaces].
  intros H. now apply lstrip_spaces, rstrip_empty.
Qed.

(** ** Parser *)

Lemma re_split_cons s : exists h t, re_split s = h :: t.
Proof.
  destruct s as [|c r]; simpl; [now eauto|].
  destruct (is_joiner c); [now eauto|]. destruct (re_split r); eauto.
Qed.

Lemma re_split_joiner a j b :
  is_joiner j = true -> re_split (a ++ String j b) = (re_split a ++ re_split b)%list.
Proof.
  intros Hj. induction a as [|c a IH]; simpl.
  - now rewrite Hj.
  - rewrite IH. destruct (is_joiner c); [reflexivity|].
    destruct (re_split_cons a) as (h & t & ->). reflexivity.
Qed.

Lemma re_split_no_joiner s :
  all_chars (fun c => negb (is_joiner c)) s = true -> re_split s = [s].
Proof.
  induction s as [|c r IH]; simpl; [reflexivity|].
  rewrite andb_true_iff, negb_true_iff. intros [-> Hr]. now rewrite (IH Hr).
Qed.

Lemma space_not_joiner c : isspace c = true -> negb (is_joiner c) = true.
Proof. ascii_cases c. Qed.

Lemma parse_parts_app (a b : list string) :
  parse_parts (a ++ b)%list = (parse_parts a ++ parse_parts b)%list.
Proof.
  induction a as [|p a IH]; simpl; [reflexivity|].
  rewrite IH. now destruct (truthy (strip p)).
Qed.

Lemma parse_compound_sku_split s :
  parse_compound_sku (Some s) = parse_parts (re_split s).
Proof. destruct s; reflexivity. Qed.

Lemma parse_joined a j b :
  is_joiner j = true ->
  parse_compound_sku (Some (a ++ String j b)) =
  (parse_compound_sku (Some a) ++ parse_compound_sku (Some b))%list.
Proof.
  intros Hj. rewrite !parse_compound_sku_split, re_split_joiner by assumption.
  apply parse_parts_app.
Qed.

Lemma parse_blank w : strip w = "" -> parse_compound_sku (Some w) = [].
Proof.
  intros Hw. rewrite parse_compound_sku_split, re_split_no_joiner.
  - simpl. now rewrite Hw.
  - apply strip_empty in Hw. revert Hw. apply all_chars_impl, space_not_joiner.
Qed.

(** C6: the compound SKU of the specification parses to its three references
    in order of appearance, with quantities 1, 2 and 3; the prefix shape is
    tried before the suffix shape (a part carrying both markers is read by
    its prefix), and the references come out in the order of the parts. *)
Theorem parse_compound_sku_example :
  parse_compound_sku (Some "MAKDJR186+2xBL1850+DC18RC(x3)")
    = [("MAKDJR186", 1%N); ("BL1850", 2%N); ("DC18RC", 3%N)]
  /\ parse_compound_sku (Some "2xBL1850(x3)") = [("BL1850(x3)", 2%N)]
  /\ parse_compound_sku (Some "DC18RC(x3)+2xBL1850+MAKDJR186")
    = [("DC18RC", 3%N); ("BL1850", 2%N); ("MAKDJR186", 1%N)].
Proof. repeat split; vm_compute; reflexivity. Qed.

(** C7: [None] and the empty text parse to the empty list, and a part that is
    empty once stripped contributes nothing, wherever the joiners put it:
    alone, between two joiners, before the first or after the last one. *)
Theorem parse_compound_sku_drops_empty_parts
    (a w b : string) (j1 j2 : ascii) :
  is_joiner j1 = true -> is_joiner j2 = true -> strip w = "" ->
  parse_compound_sku None = []
  /\ parse_compound_sku (Some "") = []
  /\ parse_compound_sku (Some w) = []
  /\ parse_compound_sku (Some (a ++ String j1 (w ++ String j2 b)))
     = (parse_compound_sku (Some a) ++ parse_compound_sku (Some b))%list
  /\ parse_compound_sku (Some (w ++ String j1 b)) = parse_compound_sku (Some b)
  /\ parse_compound_sku (Some (a ++ String j1 w)) = parse_compound_sku (Some a).
Proof.
  intros H1 H2 Hw. pose proof (parse_blank w Hw) as Hb.
  repeat split; try reflexivity; try assumption.
  - rewrite (parse_joined a j1) by assumption.
    rewrite (parse_joined w j2) by assumption. now rewrite Hb.
  - rewrite (parse_joined w j1) by assumption. now rewrite Hb.
  - rewrite (parse_joined a j1) by assumption. rewrite Hb. apply app_nil_r.
Qed.

Lemma parse_compound_sku_drops_empty_parts_witness :
  parse_compound_sku (Some ("AB1" ++ String "+" ("  " ++ String "/" "2xCD")))
  = (parse_compound_sku (Some "AB1") ++ parse_compound_sku (Some "2xCD"))%list.
Proof.
  apply (parse_compound_sku_drops_empty_parts "AB1" "  " "2xCD" "+" "/");
    reflexivity.
Defined.

Lemma span_digits_digits s d t :
  span_digits s = (d, t) -> all_chars isdigit d = true.
Proof.
  revert d t. induction s as [|c r IH]; simpl; intros d t.
  - now intros [= <- <-].
  - destruct (isdigit c) eqn:Hc.
    + destruct (span_digits r) as [d' t'] eqn:Hr. intros [= <- <-].
      simpl. rewrite Hc. exact (IH _ _ eq_refl).
    + now intros [= <- <-].
Qed.

Lemma int_from_zero d acc :
  all_chars isdigit d = true ->
  int_from acc d = 0%N <-> acc = 0%N /\ all_chars is_zero_digit d = true.
Proof.
  revert acc. induction d as [|c r IH]; simpl; intros acc.
  - intros _. tauto.
  - rewrite andb_true_iff. intros [Hc Hr]. rewrite (IH _ Hr). split.
    + intros [Hacc Hz]. assert (acc = 0%N) as -> by lia.
      rewrite (isdigit_code c Hc) by lia. auto.
    + intros [-> Hz]. apply andb_true_iff in Hz as [Hz ?].
      apply Ascii.eqb_eq in Hz as ->. auto.
Qed.

Lemma match_qty_prefix_digits part d rest :
  match_qty_prefix part = Some (d, rest) ->
  d <> "" /\ all_chars isdigit d = true.
Proof.
  unfold match_qty_prefix.
  destruct (span_digits (before_eol part)) as [d' t] eqn:Hs.
  destruct d' as [|c d']; [discriminate|]. destruct t as [|x t]; [discriminate|].
  destruct (_ && _); [|discriminate]. intros [= <- <-].
  split; [discriminate|]. exact (span_digits_digits _ _ _ Hs).
Qed.

Lemma rev_onto_nonempty s acc : acc <> "" -> rev_onto acc s <> "".
Proof.
  revert acc. induction s as [|b r IH]; simpl; intros acc Ha; [exact Ha|].
  now apply IH.
Qed.

Lemma reverse_nonempty c s : reverse (String c s) <> "".
Proof. unfold reverse. simpl. now apply rev_onto_nonempty. Qed.

Lemma match_qty_suffix_digits part d rest :
  match_qty_suffix part = Some (rest, d) ->
  d <> "" /\ all_chars isdigit d = true.
Proof.
  unfold match_qty_suffix.
  destruct (reverse (before_eol part)) as [|c0 r]; [discriminate|].
  destruct (span_digits r) as [d' t] eqn:Hs.
  destruct d' as [|c d']; [discriminate|]. destruct t as [|x t]; [discriminate|].
  destruct t as [|p t]; [discriminate|].
  destruct (_ && _); [|discriminate]. intros [= <- <-].
  split; [apply reverse_nonempty|].
  rewrite all_chars_reverse. exact (span_digits_digits _ _ _ Hs).
Qed.

Lemma int_zero d :
  all_chars isdigit d = true ->
  int d = 0%N <-> all_chars is_zero_digit d = true.
Proof.
  intros Hd. unfold int. rewrite (int_from_zero d 0%N Hd). tauto.
Qed.

(** What [parse_part] returns, by the marker the part carries. *)
Lemma parse_part_quantity part p q :
  parse_part part = (p, q) ->
  match quantity_digits part with
  | None => p = part /\ q = 1%N
  | Some digits =>
      digits <> "" /\ all_chars isdigit digits = true /\ q = int digits
  end.
Proof.
  unfold parse_part, quantity_digits.
  destruct (match_qty_prefix part) as [[d rest]|] eqn:Hp.
  - intros [= <- <-]. destruct (match_qty_prefix_digits _ _ _ Hp). auto.
  - destruct (match_qty_suffix part) as [[rest d]|] eqn:Hs.
    + intros [= <- <-]. destruct (match_qty_suffix_digits _ _ _ Hs). auto.
    + intros [= <- <-]. auto.
Qed.

Lemma parse_parts_In parts p q :
  In (p, q) (parse_parts parts) ->
  exists part, In part (map strip parts) /\ part <> "" /\ parse_part part = (p, q).
Proof.
  induction parts as [|x parts IH]; simpl; [tauto|].
  destruct (truthy (strip x)) eqn:Hx.
  - intros [H|H].
    + exists (strip x). apply truthy_true in Hx. auto.
    + destruct (IH H) as (part & ? & ? & ?). exists part. auto.
  - intros H. destruct (IH H) as (part & ? & ? & ?). exists part. auto.
Qed.

(** C4 (as the code has it): every reference comes from one stripped,
    non-empty part of the input; its quantity is 1 when the part carries no
    quantity marker and the value of the marker's digits otherwise, so it is
    at least 1 unless those digits are all zeros, in which case it is 0. *)
Theorem parse_compound_sku_quantity (sku p : string) (q : N) :
  In (p, q) (parse_compound_sku (Some sku)) ->
  exists part,
    In part (map strip (re_split sku)) /\ part <> "" /\
    parse_part part = (p, q) /\
    match quantity_digits part with
    | None => q = 1%N
    | Some digits =>
        q = int digits /\
        ((1 <= q)%N \/
         (q = 0%N /\ digits <> "" /\ all_chars is_zero_digit digits = true))
    end.
Proof.
  rewrite parse_compound_sku_split. intros Hin.
  destruct (parse_parts_In _ _ _ Hin) as (part & Hpart & Hne & Hpq).
  exists part. repeat split; try assumption.
  pose proof (parse_part_quantity _ _ _ Hpq) as Hq.
  destruct (quantity_digits part) as [digits|]; [|tauto].
  destruct Hq as (Hd & Hdig & ->). split; [reflexivity|].
  destruct (N.eq_dec (int digits) 0%N) as [Hz|Hz]; [right|left; lia].
  split; [exact Hz|]. split; [exact Hd|]. now apply int_zero.
Qed.

Lemma parse_compound_sku_quantity_witness :
  exists part,
    In part (map strip (re_split "2xBL1850")) /\ part <> "" /\
    parse_part part = ("BL1850", 2%N) /\
    match quantity_digits part with
    | None => 2%N = 1%N
    | Some digits =>
        2%N = int digits /\
        ((1 <= 2)%N \/
         (2%N = 0%N /\ digits <> "" /\ all_chars is_zero_digit digits = true))
    end.
Proof.
  apply (parse_compound_sku_quantity "2xBL1850" "BL1850" 2%N).
  vm_compute. left. reflexivity.
Defined.

(** C4, counterexample: a prefix marker with digit 0 gives a reference of
    quantity 0. *)
Lemma parse_compound_sku_zero_quantity :
  parse_compound_sku (Some "0xABC") = [("ABC", 0%N)]
  /\ ~ (forall sku p q,
          In (p, q) (parse_compound_sku (Some sku)) -> (1 <= q)%N).
Proof.
  split; [reflexivity|].
  intros H. specialize (H "0xABC" "ABC" 0%N). 
  assert (In ("ABC", 0%N) (parse_compound_sku (Some "0xABC"))) as Hin
    by (vm_compute; left; reflexivity).
  apply H in Hin. lia.
Qed.

(** ** Fingerprints *)

Lemma all_chars_sub_spaces (p : ascii -> bool) b s :
  p " "%char = true ->
  all_chars p s = true -> all_chars p (sub_spaces b s) = true.
Proof.
  intros Hsp. revert b. induction s as [|c r IH]; simpl; intros b; [reflexivity|].
  rewrite andb_true_iff. intros [Hc Hr].
  destruct (isspace c), b; simpl; rewrite ?Hsp, ?Hc; simpl; auto.
Qed.

Lemma fingerprint_blank b t :
  all_chars (fun c => negb (is_alnum c)) t = true ->
  strip (sub_spaces b (map_chars sub_special (lower t))) = "".
Proof.
  intros H. apply strip_spaces, all_chars_sub_spaces; [reflexivity|].
  unfold lower. rewrite !all_chars_map. revert H. apply all_chars_impl.
  intros c Hc. apply not_alnum_special. now apply negb_true_iff.
Qed.

Lemma listing_of_row_fields sha name sku asin_cell status price l :
  listing_of_row sha name sku asin_cell status price = Some l ->
  item_name l = strip name /\ strip name <> "" /\
  fingerprint l = fingerprint_title (Some (strip name)) /\
  fingerprint_hash l = hash_fingerprint sha (fingerprint_title (Some (strip name))).
Proof.
  unfold listing_of_row.
  destruct (truthy (strip name)) eqn:Hn; simpl; [|discriminate].
  destruct (String.eqb (strip name) "nan"); [discriminate|].
  destruct (negb (truthy (strip sku)) || _); [discriminate|].
  destruct (String.eqb _ "inactive"); [discriminate|].
  intros [= <-]. simpl. apply truthy_true in Hn. auto.
Qed.

(** C10: a non-empty title without any alphanumeric character has the empty
    text, not [None], as its fingerprint; the hash of that fingerprint is
    [None]; and a listing row with such a title is loaded, and remembered by
    the aggregator, with fingerprint [""] and fingerprint hash [None]. *)
Theorem fingerprint_without_alnum
    (sha256_hexdigest : string -> string) (title : string) :
  title <> "" ->
  all_chars (fun c => negb (is_alnum c)) title = true ->
  fingerprint_title (Some title) = Some ""
  /\ hash_fingerprint sha256_hexdigest (Some "") = None
  /\ hash_fingerprint sha256_hexdigest (fingerprint_title (Some title)) = None
  /\ forall sku asin_cell status price l all_components,
       listing_of_row sha256_hexdigest title sku asin_cell status price = Some l ->
       fingerprint l = Some "" /\ fingerprint_hash l = None /\
       listing_memory (create_boms_and_listings [l] all_components)
       = [ {| lm_asin := asin l; lm_sku := seller_sku l;
              title_fingerprint := Some ""; title_fingerprint_hash := None;
              lm_bom_sku := seller_sku l; resolution_source := "IMPORT" |} ].
Proof.
  intros Hne Hpunct.
  assert (forall t, t <> "" -> all_chars (fun c => negb (is_alnum c)) t = true ->
                    fingerprint_title (Some t) = Some "") as Hfp.
  { intros t Ht Hp. unfold fingerprint_title.
    apply truthy_true in Ht. rewrite Ht. now rewrite fingerprint_blank. }
  rewrite (Hfp title Hne Hpunct). repeat split.
  - apply listing_of_row_fields in H as (_ & Hn & -> & _).
    apply Hfp; [exact Hn|]. now apply all_chars_strip.
  - apply listing_of_row_fields in H as (_ & Hn & _ & ->).
    rewrite Hfp; [reflexivity|exact Hn|]. now apply all_chars_strip.
  - apply listing_of_row_fields in H as (_ & Hn & Hf & Hh).
    unfold create_boms_and_listings. simpl. unfold memory_of.
    rewrite Hh, Hf, Hfp; [reflexivity|exact Hn|]. now apply all_chars_strip.
Qed.

Lemma fingerprint_without_alnum_witness :
  fingerprint_title (Some "!!!") = Some ""
  /\ hash_fingerprint (fun s => s) (Some "") = None
  /\ hash_fingerprint (fun s => s) (fingerprint_title (Some "!!!")) = None
  /\ forall sku asin_cell status price l all_components,
       listing_of_row (fun s => s) "!!!" sku asin_cell status price = Some l ->
       fingerprint l = Some "" /\ fingerprint_hash l = None /\
       listing_memory (create_boms_and_listings [l] all_components)
       = [ {| lm_asin := asin l; lm_sku := seller_sku l;
              title_fingerprint := Some ""; title_fingerprint_hash := None;
              lm_bom_sku := seller_sku l; resolution_source := "IMPORT" |} ].
Proof.
  apply (fingerprint_without_alnum (fun s => s) "!!!"); [discriminate|reflexivity].
Defined.

(** ** Aggregator: shape of the four outputs *)

Lemma process_listings_from (all_components : list component) listings out :
  fold_left (process_listing all_components) listings out =
  {| boms := boms out ++ map bom_of listings;
     bom_components_list :=
       bom_components_list out ++
       flat_map (fun l => links_of l (matched_components l all_components)) listings;
     listing_memory := listing_memory out ++ map memory_of listings;
     unmatched :=
       unmatched out ++
       map unmatched_of (List.filter (no_match all_components) listings) |}%list.
Proof.
  revert out. induction listings as [|l listings IH]; intros out; simpl.
  - destruct out; simpl. now rewrite !app_nil_r.
  - rewrite IH. unfold process_listing, no_match. simpl.
    destruct (matched_components l all_components) eqn:Hm; simpl;
      rewrite <- !app_assoc; reflexivity.
Qed.

Lemma match_parsed_In parsed all_components sku qty :
  In (sku, qty) (match_parsed parsed all_components) ->
  exists pattern,
    In (pattern, qty) parsed /\
    match_component_to_import pattern all_components = Some sku.
Proof.
  induction parsed as [|[pattern q] parsed IH]; simpl; [tauto|].
  destruct (match_component_to_import pattern all_components) as [m|] eqn:Hm.
  - destruct (truthy m).
    + intros [[= <- <-]|H].
      * exists pattern. auto.
      * destruct (IH H) as (p' & ? & ?). exists p'. auto.
    + intros H. destruct (IH H) as (p' & ? & ?). exists p'. auto.
  - intros H. destruct (IH H) as (p' & ? & ?). exists p'. auto.
Qed.

Lemma title_scan_In title all_components m :
  In m (title_scan title all_components) ->
  title_scan title all_components = [m] /\
  exists comp, In comp all_components /\ m = (internal_sku comp, 1%N).
Proof.
  induction all_components as [|comp rest IH]; simpl; [tauto|].
  destruct (truthy (description comp) && truthy title).
  - destruct (_ && _).
    + intros [<-|[]]. split; [reflexivity|]. exists comp. auto.
    + intros H. destruct (IH H) as (? & c & ? & ?). split; [assumption|].
      exists c. auto.
  - intros H. destruct (IH H) as (? & c & ? & ?). split; [assumption|].
    exists c. auto.
Qed.

Lemma match_parsed_answers parsed catalog :
  match_parsed parsed catalog = flat_map (answer_of catalog) parsed.
Proof.
  induction parsed as [|[pattern qty] parsed IH]; simpl; [reflexivity|].
  unfold answer_of at 1. simpl. rewrite IH.
  destruct (match_component_to_import pattern catalog) as [sku|];
    [|reflexivity].
  now destruct (truthy sku).
Qed.

Lemma answered_In l catalog pattern qty sku :
  In (pattern, qty) (parse_compound_sku (Some (seller_sku l))) ->
  match_component_to_import pattern catalog = Some sku -> sku <> "" ->
  In (sku, qty) (answered_references l catalog).
Proof.
  intros Hin Hm Hne. unfold answered_references. apply in_flat_map.
  exists (pattern, qty). split; [exact Hin|]. unfold answer_of. simpl.
  apply truthy_true in Hne. rewrite Hm, Hne. simpl. auto.
Qed.

Lemma answered_nil l catalog :
  answered_references l catalog = [] <->
  forall pattern qty,
    In (pattern, qty) (parse_compound_sku (Some (seller_sku l))) ->
    match_component_to_import pattern catalog = None \/
    match_component_to_import pattern catalog = Some "".
Proof.
  unfold answered_references.
  induction (parse_compound_sku (Some (seller_sku l))) as [|[p q] parsed IH];
    simpl.
  - split; [intros _ ? ? []|reflexivity].
  - unfold answer_of at 1. simpl. split.
    + intros H. apply app_eq_nil in H as [Hhead Hrest].
      intros pattern qty [[= <- <-]|Hin]; [|exact (proj1 IH Hrest _ _ Hin)].
      destruct (match_component_to_import p catalog) as [sku|];
        [|auto].
      destruct sku; [auto|discriminate].
    + intros H. rewrite (proj2 IH) by (intros; eapply H; eauto).
      destruct (H p q (or_introl eq_refl)) as [-> | ->]; reflexivity.
Qed.

Lemma matched_components_answered l catalog :
  matched_components l catalog
  = match answered_references l catalog with
    | [] => title_scan (item_name l) catalog
    | _ :: _ => answered_references l catalog
    end.
Proof.
  unfold matched_components, answered_references.
  rewrite match_parsed_answers. now destruct (flat_map _ _).
Qed.

(** C2: the aggregator returns one BOM and one listing memory entry per
    listing, in order; the links are those of the matched references of each
    listing and nothing else: a link carries the catalog SKU the matcher
    returned for one parsed reference, with that reference's quantity, or
    the single pick of the title scan with quantity 1; and a listing adds
    one unmatched record and no link when neither phase matched, and at
    least one link and no unmatched record otherwise.  The matched
    references are read off the parser and the matcher: they are the
    references the matcher answers with a non-empty SKU, each linked with
    its quantity, or else what the title scan takes; a listing has none
    exactly when the matcher answers none of its references and the title
    scan takes nothing, and exactly then its record is in the unmatched
    collection. *)
Theorem create_boms_and_listings_invariants
    (listings : list listing) (all_components : list component) :
  let out := create_boms_and_listings listings all_components in
  boms out = map bom_of listings
  /\ listing_memory out = map memory_of listings
  /\ List.length (boms out) = List.length listings
  /\ List.length (listing_memory out) = List.length listings
  /\ bom_components_list out =
     flat_map (fun l => links_of l (matched_components l all_components)) listings
  /\ unmatched out =
     map unmatched_of (List.filter (no_match all_components) listings)
  /\ (forall l link,
        In link (links_of l (matched_components l all_components)) ->
        bom_sku link = seller_sku l /\
        ((exists pattern,
            In (pattern, qty_required link)
               (parse_compound_sku (Some (seller_sku l))) /\
            match_component_to_import pattern all_components
            = Some (component_sku link))
         \/ (match_parsed (parse_compound_sku (Some (seller_sku l)))
                          all_components = [] /\
             title_scan (item_name l) all_components
             = [(component_sku link, 1%N)] /\
             qty_required link = 1%N)))
  /\ (forall l,
        let one := create_boms_and_listings [l] all_components in
        (matched_components l all_components = [] /\
         unmatched one = [unmatched_of l] /\ bom_components_list one = [])
        \/ (matched_components l all_components <> [] /\
            unmatched one = [] /\ bom_components_list one <> []))
  /\ (forall l,
        matched_components l all_components
        = match answered_references l all_components with
          | [] => title_scan (item_name l) all_components
          | _ :: _ => answered_references l all_components
          end)
  /\ (forall l pattern qty sku,
        In l listings ->
        In (pattern, qty) (parse_compound_sku (Some (seller_sku l))) ->
        match_component_to_import pattern all_components = Some sku ->
        sku <> "" ->
        In {| bom_sku := seller_sku l; component_sku := sku;
              qty_required := qty |} (bom_components_list out))
  /\ (forall l,
        matched_components l all_components = [] <->
        (forall pattern qty,
           In (pattern, qty) (parse_compound_sku (Some (seller_sku l))) ->
           match_component_to_import pattern all_components = None \/
           match_component_to_import pattern all_components = Some "")
        /\ title_scan (item_name l) all_components = [])
  /\ (forall l,
        In l listings ->
        (In (unmatched_of l) (unmatched out) <->
         matched_components l all_components = [])
        /\ (matched_components l all_components <> [] ->
            exists link, In link (bom_components_list out)
                         /\ bom_sku link = seller_sku l)).
Proof.
  unfold create_boms_and_listings. cbv zeta.
  rewrite process_listings_from. simpl.
  split; [reflexivity|]. split; [reflexivity|].
  split; [now rewrite length_map|]. split; [now rewrite length_map|].
  split; [reflexivity|]. split; [reflexivity|].
  split; [|split; [|split; [|split; [|split]]]].
  - intros l link H. split.
    + unfold links_of in H. apply in_map_iff in H as (m & <- & _). reflexivity.
    + unfold links_of in H. apply in_map_iff in H as ([sku qty] & <- & Hin).
      simpl. unfold matched_components in Hin.
      destruct (match_parsed _ all_components) as [|m0 ms] eqn:Hmp.
      * right. apply title_scan_In in Hin as (Hts & comp & _ & [= -> ->]).
        auto.
      * left. rewrite <- Hmp in Hin. now apply match_parsed_In.
  - intros l. simpl. unfold process_listing. simpl.
    destruct (matched_components l all_components) eqn:Hm; simpl.
    + left. auto.
    + right. repeat split; discriminate.
  - intros l. apply matched_components_answered.
  - intros l pattern qty sku Hl Hin Hm Hne. apply in_flat_map. exists l.
    split; [exact Hl|]. unfold links_of. apply in_map_iff.
    exists (sku, qty). split; [reflexivity|].
    pose proof (answered_In l all_components _ _ _ Hin Hm Hne) as Ha.
    rewrite matched_components_answered.
    destruct (answered_references l all_components); [destruct Ha|exact Ha].
  - intros l. rewrite matched_components_answered.
    pose proof (answered_nil l all_components) as Hnil.
    destruct (answered_references l all_components) eqn:Ha.
    + tauto.
    + split; [discriminate|]. intros [H _].
      apply (proj2 Hnil) in H. discriminate.
  - intros l Hl. split.
    + split.
      * intros H. apply in_map_iff in H as (l' & Heq & Hl').
        apply filter_In in Hl' as [_ Hno]. unfold no_match in Hno.
        assert (matched_components l all_components
                = matched_components l' all_components) as ->.
        { unfold matched_components. injection Heq as Hsku Hname _.
          now rewrite Hsku, Hname. }
        now destruct (matched_components l' all_components).
      * intros H. apply in_map_iff. exists l. split; [reflexivity|].
        apply filter_In. split; [exact Hl|]. unfold no_match. now rewrite H.
    + intros Hne.
      destruct (matched_components l all_components) as [|m ms] eqn:Hm;
        [congruence|].
      exists {| bom_sku := seller_sku l; component_sku := fst m;
                qty_required := snd m |}.
      split; [|reflexivity]. apply in_flat_map. exists l.
      split; [exact Hl|]. rewrite Hm. simpl. auto.
Qed.

Lemma create_boms_and_listings_invariants_witness :
  In {| bom_sku := "Q+2xbl1850"; component_sku := "BL1850"; qty_required := 2 |}
     (bom_components_list
        (create_boms_and_listings [Sample.row "Other" "Q+2xbl1850"]
           [Sample.entry "MAKDJR186" ""; Sample.entry "BL1850" ""])).
Proof.
  destruct (create_boms_and_listings_invariants
              [Sample.row "Other" "Q+2xbl1850"]
              [Sample.entry "MAKDJR186" ""; Sample.entry "BL1850" ""])
    as (_ & _ & _ & _ & _ & _ & _ & _ & _ & Hlinked & _).
  apply (Hlinked (Sample.row "Other" "Q+2xbl1850") "bl1850" 2%N "BL1850").
  - simpl. auto.
  - vm_compute. right. left. reflexivity.
  - reflexivity.
  - discriminate.
Defined.

(** ** Matcher *)

Lemma scan_equal_first_hit target catalog :
  scan_equal target catalog = first_hit (exact_tier target) catalog.
Proof.
  unfold first_hit, exact_tier.
  induction catalog as [|comp rest IH]; simpl; [reflexivity|].
  now destruct (String.eqb _ target).
Qed.

Lemma scan_partial_first_hit pattern_upper catalog :
  scan_partial pattern_upper catalog
  = first_hit (containment_tier pattern_upper) catalog.
Proof.
  unfold first_hit, containment_tier.
  induction catalog as [|comp rest IH]; simpl; [reflexivity|].
  now destruct (_ || _).
Qed.

Lemma first_hit_guard (b : bool) target catalog :
  (if b then scan_equal target catalog else None)
  = first_hit (fun sku_upper => b && String.eqb sku_upper target) catalog.
Proof.
  destruct b; simpl; [apply scan_equal_first_hit|].
  unfold first_hit. induction catalog as [|comp rest IH]; simpl; auto.
Qed.

Lemma scan_prefixes_first_tier pattern_upper ps catalog :
  scan_prefixes pattern_upper ps catalog
  = first_tier (prefix_tiers pattern_upper ps) catalog.
Proof.
  induction ps as [|prefix ps IH]; simpl; [reflexivity|].
  rewrite !first_hit_guard, IH. unfold or_else.
  reflexivity.
Qed.

Lemma first_hit_none t catalog :
  first_hit t catalog = None <->
  forall comp, In comp catalog -> t (upper (internal_sku comp)) = false.
Proof.
  unfold first_hit. split.
  - intros H comp Hin.
    destruct (find _ catalog) eqn:Hf; [discriminate|].
    exact (find_none _ _ Hf comp Hin).
  - intros H. destruct (find _ catalog) as [c|] eqn:Hf; [|reflexivity].
    apply find_some in Hf as [Hin Ht]. rewrite (H c Hin) in Ht. discriminate.
Qed.

Lemma first_tier_none ts catalog :
  first_tier ts catalog = None <->
  forall t comp, In t ts -> In comp catalog -> t (upper (internal_sku comp)) = false.
Proof.
  induction ts as [|t ts IH]; simpl.
  - split; [intros _ ? ? []|reflexivity].
  - destruct (first_hit t catalog) eqn:Hh.
    + split; [discriminate|]. intros H.
      assert (first_hit t catalog = None) as Hn
        by (apply first_hit_none; intros; apply H; auto).
      congruence.
    + rewrite IH. rewrite first_hit_none in Hh. split.
      * intros H t' comp [<-|Ht'] Hc; auto.
      * intros H t' comp Ht' Hc. apply H; auto.
Qed.

Lemma match_component_first_tier component_pattern all_components :
  match_component_to_import component_pattern all_components
  = first_tier (tiers (upper component_pattern)) all_components.
Proof.
  unfold match_component_to_import, tiers. simpl first_tier.
  rewrite scan_equal_first_hit, scan_partial_first_hit.
  rewrite scan_prefixes_first_tier. reflexivity.
Qed.

Lemma find_first {A} (f : A -> bool) l x :
  List.find f l = Some x ->
  exists before after,
    l = (before ++ x :: after)%list /\ f x = true /\
    forall y, In y before -> f y = false.
Proof.
  induction l as [|a l IH]; simpl; [discriminate|].
  destruct (f a) eqn:Ha.
  - intros [= <-]. exists [], l. repeat split; [assumption|]. intros ? [].
  - intros H. destruct (IH H) as (before & after & -> & Hx & Hb).
    exists (a :: before), after. repeat split; [assumption|].
    intros y [<-|Hy]; auto.
Qed.

Lemma first_tier_first ts catalog sku :
  first_tier ts catalog = Some sku ->
  exists before t after,
    ts = (before ++ t :: after)%list /\
    (forall t' comp, In t' before -> In comp catalog ->
                     t' (upper (internal_sku comp)) = false) /\
    first_hit t catalog = Some sku.
Proof.
  induction ts as [|t ts IH]; simpl; [discriminate|].
  destruct (first_hit t catalog) as [s|] eqn:Hh.
  - intros [= ->]. exists [], t, ts. repeat split; [|exact Hh].
    intros ? ? [].
  - intros H. destruct (IH H) as (before & t0 & after & -> & Hb & Hhit).
    exists (t :: before), t0, after. repeat split; [|exact Hhit].
    intros t' comp [<-|Ht'] Hc; [|now apply Hb].
    rewrite first_hit_none in Hh. now apply Hh.
Qed.

Lemma first_hit_first t catalog sku :
  first_hit t catalog = Some sku ->
  exists before comp after,
    catalog = (before ++ comp :: after)%list /\
    internal_sku comp = sku /\ t (upper (internal_sku comp)) = true /\
    forall c, In c before -> t (upper (internal_sku c)) = false.
Proof.
  unfold first_hit.
  destruct (List.find _ catalog) as [comp|] eqn:Hf; [|discriminate].
  intros [= <-]. apply find_first in Hf as (before & after & -> & Ht & Hb).
  exists before, comp, after. auto.
Qed.

(** C3: the matcher runs three phases in order, the exact scan, the
    containment scan and the prefix loop, and answers with the first hit,
    in catalog order, of the first tier that has one, the tiers being tried
    in the order exact, containment, then MAK, DEW, MAKITA, DEWALT, each
    with the prefix added before the prefix stripped; the prefix loop on its
    own answers with the first hit of the first of its eight tiers that has
    one, whatever the catalog order of the hits of later tiers; when the
    catalog holds an entry equal to the pattern up to case, the answer is
    the first such entry, whatever the other tiers would find; and the
    answer is [None] exactly when no entry passes any tier. *)
Theorem match_component_to_import_tiers
    (component_pattern : string) (all_components : list component) :
  let pattern_upper := upper component_pattern in
  let answer := match_component_to_import component_pattern all_components in
  tiers pattern_upper =
    [ exact_tier pattern_upper; containment_tier pattern_upper;
      add_prefix_tier pattern_upper "MAK"; strip_prefix_tier pattern_upper "MAK";
      add_prefix_tier pattern_upper "DEW"; strip_prefix_tier pattern_upper "DEW";
      add_prefix_tier pattern_upper "MAKITA";
      strip_prefix_tier pattern_upper "MAKITA";
      add_prefix_tier pattern_upper "DEWALT";
      strip_prefix_tier pattern_upper "DEWALT" ]
  /\ answer = first_tier (tiers pattern_upper) all_components
  /\ (forall comp,
        In comp all_components ->
        upper (internal_sku comp) = pattern_upper ->
        exists first,
          List.find (fun c => String.eqb (upper (internal_sku c)) pattern_upper)
                    all_components = Some first /\
          upper (internal_sku first) = pattern_upper /\
          answer = Some (internal_sku first))
  /\ (answer = None <->
      forall t comp,
        In t (tiers pattern_upper) -> In comp all_components ->
        t (upper (internal_sku comp)) = false)
  /\ (answer
      = (scan_equal pattern_upper all_components
         orelse scan_partial pattern_upper all_components
         orelse scan_prefixes pattern_upper prefixes all_components)
      /\ scan_equal pattern_upper all_components
         = first_hit (exact_tier pattern_upper) all_components
      /\ scan_partial pattern_upper all_components
         = first_hit (containment_tier pattern_upper) all_components)
  /\ (forall pattern catalog,
        scan_prefixes pattern prefixes catalog
        = first_tier
            [ add_prefix_tier pattern "MAK"; strip_prefix_tier pattern "MAK";
              add_prefix_tier pattern "DEW"; strip_prefix_tier pattern "DEW";
              add_prefix_tier pattern "MAKITA";
              strip_prefix_tier pattern "MAKITA";
              add_prefix_tier pattern "DEWALT";
              strip_prefix_tier pattern "DEWALT" ] catalog)
  /\ (forall ts catalog sku,
        first_tier ts catalog = Some sku ->
        exists earlier t later before comp after,
          ts = (earlier ++ t :: later)%list /\
          (forall t' c, In t' earlier -> In c catalog ->
                        t' (upper (internal_sku c)) = false) /\
          catalog = (before ++ comp :: after)%list /\
          internal_sku comp = sku /\
          t (upper (internal_sku comp)) = true /\
          (forall c, In c before -> t (upper (internal_sku c)) = false))
  /\ (let entry sku := Component sku "" "" 0 true "" in
      scan_prefixes "DCB" prefixes [entry "DEWDCB"; entry "MAKDCB"]
      = Some "MAKDCB"
      /\ scan_prefixes "DCB" prefixes [entry "MAKITADCB"; entry "DEWDCB"]
         = Some "DEWDCB"
      /\ scan_prefixes "DCB" prefixes [entry "DEWALTDCB"; entry "MAKITADCB"]
         = Some "MAKITADCB"
      /\ scan_prefixes "MAKDCB" prefixes [entry "DEWMAKDCB"; entry "DCB"]
         = Some "DCB"
      /\ scan_prefixes "DEWDCB" prefixes [entry "DCB"; entry "MAKDEWDCB"]
         = Some "MAKDEWDCB"
      /\ scan_prefixes "DCB" prefixes [entry "XDCB"; entry "DCBX"] = None).
Proof.
  cbv zeta.
  pose proof (match_component_first_tier component_pattern all_components) as Heq.
  split; [reflexivity|]. split; [exact Heq|].
  split; [|split; [|split; [|split; [|split]]]].
  - intros comp Hin Hup.
    destruct (List.find (fun c => String.eqb (upper (internal_sku c))
                                    (upper component_pattern)) all_components)
      as [first|] eqn:Hf.
    + exists first. pose proof (find_some _ _ Hf) as [_ Hfirst].
      apply String.eqb_eq in Hfirst. repeat split; [assumption|].
      rewrite Heq. unfold tiers. simpl. unfold first_hit, exact_tier.
      now rewrite Hf.
    + pose proof (find_none _ _ Hf comp Hin) as Hno. simpl in Hno.
      rewrite Hup, String.eqb_refl in Hno. discriminate.
  - rewrite Heq. apply first_tier_none.
  - split; [reflexivity|].
    split; [apply scan_equal_first_hit|apply scan_partial_first_hit].
  - intros pattern catalog. apply scan_prefixes_first_tier.
  - intros ts catalog sku H.
    apply first_tier_first in H as (earlier & t & later & -> & He & Hhit).
    apply first_hit_first in Hhit as (before & comp & after & -> & ? & ? & ?).
    exists earlier, t, later, before, comp, after. repeat split; assumption.
  - repeat split.
Qed.

(** The example of the specification: with ["DEWDCB"] and ["DCB"] both in
    the catalog the pattern ["DCB"] resolves to ["DCB"] in either order, and
    to ["DEWDCB"], by containment, when ["DCB"] is absent. *)
Example match_component_tier_priority :
  let entry sku := Component sku "" "" 0 true "" in
  match_component_to_import "DCB" [entry "DEWDCB"; entry "DCB"] = Some "DCB"
  /\ match_component_to_import "dcb" [entry "DCB"; entry "DEWDCB"] = Some "DCB"
  /\ match_component_to_import "DCB" [entry "DEWDCB"] = Some "DEWDCB"
  /\ match_component_to_import "DCB" [entry "XYZ"] = None.
Proof. repeat split. Qed.

Lemma startswith_refl s : startswith s s = true.
Proof. induction s as [|c r IH]; simpl; [reflexivity|]. now rewrite Ascii.eqb_refl. Qed.

Lemma contains_refl s : contains s s = true.
Proof. destruct s; simpl; [reflexivity|]. now rewrite Ascii.eqb_refl, startswith_refl. Qed.

Lemma contains_app_l a s : contains s (a ++ s) = true.
Proof.
  induction a as [|c a IH]; simpl; [apply contains_refl|].
  rewrite IH. apply orb_true_r.
Qed.

Lemma contains_slice_from n s : contains (slice_from n s) s = true.
Proof.
  revert s. induction n as [|n IH]; intros s; simpl; [apply contains_refl|].
  destruct s as [|c r]; simpl; [reflexivity|]. rewrite IH. apply orb_true_r.
Qed.

(** Remark: an entry that passes a prefix tier also passes the containment
    tier, so the prefix tiers never decide an answer. *)
Lemma prefix_tiers_never_decide pattern_upper ps all_components :
  scan_partial pattern_upper all_components = None ->
  scan_prefixes pattern_upper ps all_components = None.
Proof.
  rewrite scan_partial_first_hit, scan_prefixes_first_tier.
  rewrite first_hit_none, first_tier_none. intros Hnone t comp Ht Hin.
  specialize (Hnone comp Hin). unfold containment_tier in Hnone.
  apply orb_false_iff in Hnone as [H1 H2].
  unfold prefix_tiers in Ht. apply in_flat_map in Ht as (prefix & _ & Ht).
  destruct Ht as [<-|[<-|[]]].
  - unfold add_prefix_tier. destruct (String.eqb_spec
      (upper (internal_sku comp)) (prefix ++ pattern_upper)) as [E|];
      [|apply andb_false_r].
    rewrite E, contains_app_l in H1. discriminate.
  - unfold strip_prefix_tier. destruct (String.eqb_spec
      (upper (internal_sku comp))
      (slice_from (String.length prefix) pattern_upper)) as [E|];
      [|apply andb_false_r].
    rewrite E, contains_slice_from in H2. discriminate.
Qed.

(** ** Aggregator: the title scan *)

Lemma length_map_chars f s : String.length (map_chars f s) = String.length s.
Proof. induction s as [|c r IH]; simpl; [reflexivity|]. now rewrite IH. Qed.

Lemma title_scan_pick title catalog :
  title_scan title catalog
  = if truthy title then title_pick title catalog else [].
Proof.
  unfold title_pick.
  induction catalog as [|comp rest IH]; simpl; [now destruct (truthy title)|].
  rewrite IH. unfold title_overlap.
  destruct (truthy title).
  - rewrite andb_true_r. destruct (description comp) as [|d ds]; [reflexivity|].
    cbn [truthy]. now destruct (_ && _).
  - now rewrite andb_false_r.
Qed.






(** The two embeddings of the title scan agree on 7-bit ASCII text. *)
Lemma code_eqb a b : (code a =? code b)%N = Ascii.eqb a b.
Proof.
  unfold code. destruct (Ascii.eqb_spec a b) as [->|Hne].
  - apply N.eqb_refl.
  - apply N.eqb_neq. intros E. apply Hne.
    now rewrite <- (ascii_N_embedding a), <- (ascii_N_embedding b), E.
Qed.

Lemma points_startswith s p :
  Points.startswith (Points.of_string s) (Points.of_string p) = startswith s p.
Proof.
  revert s. induction p as [|a p IH]; intros [|b s]; simpl; try reflexivity.
  now rewrite code_eqb, IH.
Qed.

Lemma points_contains needle hay :
  Points.contains (Points.of_string needle) (Points.of_string hay)
  = contains needle hay.
Proof.
  induction hay as [|c r IH].
  - cbn [contains]. rewrite <- (points_startswith "" needle). reflexivity.
  - cbn [contains]. rewrite <- IH, <- (points_startswith (String c r) needle).
    reflexivity.
Qed.

Lemma points_upper_point c :
  is_ascii c = true -> Points.upper_point (code c) = [code (to_upper c)].
Proof. ascii_cases c. Qed.

Lemma points_upper s :
  all_chars is_ascii s = true ->
  Points.upper (Points.of_string s) = Points.of_string (upper s).
Proof.
  unfold upper, Points.upper. induction s as [|c r IH]; simpl; [reflexivity|].
  rewrite andb_true_iff. intros [Hc Hr].
  now rewrite (points_upper_point c Hc), (IH Hr).
Qed.

Lemma points_length s :
  List.length (Points.of_string s) = String.length s.
Proof. induction s as [|c r IH]; simpl; [reflexivity|]. now rewrite IH. Qed.

Lemma points_truthy s : Points.truthy (Points.of_string s) = truthy s.
Proof. now destruct s. Qed.

Lemma title_scan_points_agree title (catalog : list component) :
  all_chars is_ascii title = true ->
  (forall comp, In comp catalog -> all_chars is_ascii (description comp) = true) ->
  Points.title_scan (Points.of_string title)
    (map (fun comp => (internal_sku comp, Points.of_string (description comp)))
       catalog)
  = title_scan title catalog.
Proof.
  intros Ht. induction catalog as [|comp rest IH]; intros Hd; [reflexivity|].
  cbn [map Points.title_scan title_scan].
  rewrite IH by (intros; apply Hd; simpl; auto).
  rewrite !points_truthy, (points_upper title Ht).
  rewrite (points_upper (description comp)) by (apply Hd; simpl; auto).
  now rewrite !points_contains, points_length.
Qed.

(** ** Deduplicated catalog *)

Lemma find_ext_in {A} (f g : A -> bool) l :
  (forall x, In x l -> f x = g x) -> List.find f l = List.find g l.
Proof.
  induction l as [|a l IH]; simpl; intros H; [reflexivity|].
  rewrite (H a) by auto. destruct (g a); [reflexivity|]. apply IH. auto.
Qed.

(** A test that does not tell apart two entries with the same uppercased
    SKU has the same first hit in the catalog and in what [dedup_from]
    keeps of it, up to the SKUs already seen. *)
Lemma find_dedup_from (test : component -> bool) seen catalog :
  (forall c1 c2, In c1 catalog -> In c2 catalog ->
     upper (internal_sku c1) = upper (internal_sku c2) -> test c1 = test c2) ->
  List.find test (dedup_from seen catalog)
  = List.find (fun c => test c
                 && negb (bool_decide (upper (internal_sku c) ∈ seen))) catalog.
Proof.
  revert seen. induction catalog as [|c rest IH]; intros seen Hsame; simpl;
    [reflexivity|].
  assert (forall c1 c2, In c1 rest -> In c2 rest ->
            upper (internal_sku c1) = upper (internal_sku c2) ->
            test c1 = test c2) as Hrest
    by (intros; apply Hsame; simpl; auto).
  destruct (bool_decide_reflect (upper (internal_sku c) ∈ seen)) as [Hin|Hout].
  - rewrite andb_false_r. now apply IH.
  - simpl. rewrite andb_true_r. destruct (test c) eqn:Hc; [reflexivity|].
    rewrite (IH _ Hrest). apply find_ext_in. intros x Hx.
    destruct (decide (upper (internal_sku x) = upper (internal_sku c))) as [E|N].
    + rewrite (Hsame x c) by (simpl; auto). now rewrite Hc.
    + f_equal. f_equal. apply bool_decide_ext.
      rewrite elem_of_union, elem_of_singleton. tauto.
Qed.

Lemma find_unique_components (test : component -> bool) catalog :
  (forall c1 c2, In c1 catalog -> In c2 catalog ->
     upper (internal_sku c1) = upper (internal_sku c2) -> test c1 = test c2) ->
  List.find test (unique_components catalog) = List.find test catalog.
Proof.
  intros H. unfold unique_components. rewrite (find_dedup_from _ _ _ H).
  apply find_ext_in. intros x _.
  rewrite bool_decide_eq_false_2 by set_solver. apply andb_true_r.
Qed.

Lemma first_hit_unique t catalog :
  first_hit t (unique_components catalog) = first_hit t catalog.
Proof.
  unfold first_hit. rewrite find_unique_components; [reflexivity|].
  intros c1 c2 _ _ E. now rewrite E.
Qed.

Lemma match_component_unique pattern catalog :
  match_component_to_import pattern (unique_components catalog)
  = match_component_to_import pattern catalog.
Proof.
  rewrite !match_component_first_tier.
  induction (tiers (upper pattern)) as [|t ts IH]; simpl; [reflexivity|].
  now rewrite first_hit_unique, IH.
Qed.

Lemma match_parsed_unique parsed catalog :
  match_parsed parsed (unique_components catalog) = match_parsed parsed catalog.
Proof.
  induction parsed as [|[pattern qty] parsed IH]; simpl; [reflexivity|].
  now rewrite match_component_unique, IH.
Qed.

Lemma descriptions_agree_spec catalog :
  descriptions_agree catalog = true ->
  forall c1 c2, In c1 catalog -> In c2 catalog ->
    upper (internal_sku c1) = upper (internal_sku c2) ->
    description c1 = description c2.
Proof.
  unfold descriptions_agree. intros H c1 c2 H1 H2 E.
  rewrite forallb_forall in H. specialize (H c1 H1).
  rewrite forallb_forall in H. specialize (H c2 H2).
  rewrite E, String.eqb_refl in H. simpl in H. now apply String.eqb_eq.
Qed.

Lemma title_scan_unique title catalog :
  descriptions_agree catalog = true ->
  title_scan title (unique_components catalog) = title_scan title catalog.
Proof.
  intros H. rewrite !title_scan_pick. unfold title_pick.
  rewrite find_unique_components; [reflexivity|].
  intros c1 c2 H1 H2 E. unfold title_overlap.
  now rewrite (descriptions_agree_spec _ H c1 c2 H1 H2 E).
Qed.

Lemma matched_components_unique l catalog :
  descriptions_agree catalog = true ->
  matched_components l (unique_components catalog) = matched_components l catalog.
Proof.
  intros H. unfold matched_components.
  now rewrite match_parsed_unique, title_scan_unique.
Qed.

Lemma process_listings_unique listings catalog out :
  descriptions_agree catalog = true ->
  fold_left (process_listing (unique_components catalog)) listings out
  = fold_left (process_listing catalog) listings out.
Proof.
  intros H. revert out. induction listings as [|l listings IH]; intros out;
    simpl; [reflexivity|].
  rewrite IH. unfold process_listing.
  now rewrite (matched_components_unique l catalog H).
Qed.

(** C1 (as the code has it): the aggregator does not deduplicate; the matcher
    and the title scan read the catalog as it is given.  The matcher answers
    the same on the catalog and on its deduplication (first entry per
    uppercased SKU), and so does the whole aggregator when the entries that
    share an uppercased SKU also share their description. *)
Theorem create_boms_and_listings_unique_components
    (listings : list listing) (all_components : list component) :
  (forall pattern,
     match_component_to_import pattern (unique_components all_components)
     = match_component_to_import pattern all_components)
  /\ (descriptions_agree all_components = true ->
      create_boms_and_listings listings all_components
      = create_boms_and_listings listings (unique_components all_components)).
Proof.
  split.
  - intros pattern. apply match_component_unique.
  - intros H. unfold create_boms_and_listings.
    symmetry. now apply process_listings_unique.
Qed.

Lemma create_boms_and_listings_unique_components_witness :
  List.length (unique_components Sample.agreeing_catalog) = 2%nat
  /\ create_boms_and_listings [Sample.twin_listing] Sample.agreeing_catalog
     = create_boms_and_listings [Sample.twin_listing]
         (unique_components Sample.agreeing_catalog).
Proof.
  split; [vm_compute; reflexivity|].
  apply (create_boms_and_listings_unique_components
           [Sample.twin_listing] Sample.agreeing_catalog).
  vm_compute. reflexivity.
Defined.

(** C1, counterexample: the second of two entries with the same uppercased
    SKU has the only description that overlaps the title; the title scan over
    the given catalog links it, the scan over the deduplicated catalog finds
    nothing. *)
Lemma title_scan_reads_discarded_duplicate :
  map internal_sku (unique_components Sample.twin_catalog) = ["ABC"; "BL1850"]
  /\ bom_components_list
       (create_boms_and_listings [Sample.twin_listing] Sample.twin_catalog)
     = [ {| bom_sku := "ZZZ"; component_sku := "abc"; qty_required := 1 |} ]
  /\ bom_components_list
       (create_boms_and_listings [Sample.twin_listing]
          (unique_components Sample.twin_catalog)) = []
  /\ ~ (forall listings all_components,
          create_boms_and_listings listings all_components
          = create_boms_and_listings listings (unique_components all_components)).
Proof.
  repeat split; try (vm_compute; reflexivity).
  intros H. specialize (H [Sample.twin_listing] Sample.twin_catalog).
  apply (f_equal bom_components_list) in H. vm_compute in H. discriminate H.
Qed.

(** ** Normalizer: applying it twice *)

Lemma map_chars_fixed (p : ascii -> bool) f s :
  (forall c, p c = true -> f c = c) ->
  all_chars p s = true -> map_chars f s = s.
Proof.
  intros Hf. induction s as [|c r IH]; simpl; [reflexivity|].
  rewrite andb_true_iff. intros [Hc Hr]. now rewrite (Hf c Hc), (IH Hr).
Qed.

Lemma upper_idem s : upper (upper s) = upper s.
Proof.
  unfold upper. induction s as [|c r IH]; simpl; [reflexivity|].
  now rewrite to_upper_idem, IH.
Qed.

Lemma lstrip_upper s : lstrip (upper s) = upper (lstrip s).
Proof.
  unfold upper. induction s as [|c r IH]; simpl; [reflexivity|].
  rewrite isspace_to_upper. now destruct (isspace c).
Qed.

Lemma rstrip_upper s : rstrip (upper s) = upper (rstrip s).
Proof.
  unfold upper. induction s as [|c r IH]; simpl; [reflexivity|].
  rewrite IH, isspace_to_upper.
  destruct (rstrip r); simpl; [now destruct (isspace c)|reflexivity].
Qed.

Lemma lstrip_no_leading s : leading_space s = false -> lstrip s = s.
Proof. destruct s as [|c r]; simpl; [reflexivity|]. now intros ->. Qed.

Lemma leading_space_lstrip s : leading_space (lstrip s) = false.
Proof.
  induction s as [|c r IH]; simpl; [reflexivity|].
  destruct (isspace c) eqn:Hc; [exact IH|]. simpl. exact Hc.
Qed.

Lemma rstrip_head c r :
  isspace c = false -> rstrip (String c r) = String c (rstrip r).
Proof. intros Hc. simpl. rewrite Hc. now destruct (rstrip r). Qed.

Lemma leading_space_rstrip s :
  leading_space s = false -> leading_space (rstrip s) = false.
Proof.
  destruct s as [|c r]; [reflexivity|]. cbn [leading_space]. intros Hc.
  now rewrite rstrip_head.
Qed.

Lemma rstrip_idem s : rstrip (rstrip s) = rstrip s.
Proof.
  induction s as [|c r IH]; simpl; [reflexivity|].
  destruct (rstrip r) as [|c' r'] eqn:Hr.
  - destruct (isspace c) eqn:Hc; simpl; [reflexivity|]. now rewrite Hc.
  - change (rstrip (String c (String c' r')))
      with (match rstrip (String c' r') with
            | EmptyString => if isspace c then EmptyString else String c EmptyString
            | String _ _ as r'' => String c r''
            end).
    now rewrite IH.
Qed.

Lemma strip_idem s : strip (strip s) = strip s.
Proof.
  unfold strip. rewrite (lstrip_no_leading (rstrip (lstrip s))).
  - apply rstrip_idem.
  - apply leading_space_rstrip, leading_space_lstrip.
Qed.

Lemma strip_upper s : strip (upper s) = upper (strip s).
Proof. unfold strip. now rewrite lstrip_upper, rstrip_upper. Qed.

Lemma normalize_sku_again x v :
  normalize_sku x = Some v ->
  normalize_sku (Some v) = if truthy v then Some v else None.
Proof.
  destruct x as [s|]; simpl; [|discriminate].
  destruct (truthy s); [|discriminate]. intros [= <-].
  destruct (truthy (upper (strip s))); [|reflexivity].
  now rewrite strip_upper, strip_idem, upper_idem.
Qed.

Lemma fingerprint_char_fixed c :
  fingerprint_char c = true -> to_lower c = c /\ sub_special c = c.
Proof. ascii_cases c; intros; split; reflexivity || discriminate. Qed.

Lemma fingerprint_char_sub_special c : fingerprint_char (sub_special c) = true.
Proof. ascii_cases c. Qed.

Lemma leading_space_sub_spaces s : leading_space (sub_spaces true s) = false.
Proof.
  induction s as [|c r IH]; simpl; [reflexivity|].
  destruct (isspace c) eqn:Hc; [exact IH|]. simpl. exact Hc.
Qed.

Lemma single_spaced_sub_spaces b s : single_spaced (sub_spaces b s) = true.
Proof.
  revert b. induction s as [|c r IH]; intros b; simpl; [reflexivity|].
  destruct (isspace c) eqn:Hc.
  - destruct b; [apply IH|]. simpl.
    now rewrite leading_space_sub_spaces, IH.
  - simpl. now rewrite Hc, IH.
Qed.

Lemma single_spaced_tail c r : single_spaced (String c r) = true -> single_spaced r = true.
Proof. simpl. rewrite andb_true_iff. tauto. Qed.

Lemma single_spaced_lstrip s : single_spaced s = true -> single_spaced (lstrip s) = true.
Proof.
  induction s as [|c r IH]; [reflexivity|]. intros H. simpl lstrip.
  destruct (isspace c); [|exact H]. apply IH. exact (single_spaced_tail _ _ H).
Qed.

Lemma rstrip_leading s : rstrip s <> "" -> leading_space (rstrip s) = leading_space s.
Proof.
  destruct s as [|c r]; simpl; [reflexivity|].
  destruct (rstrip r); [|reflexivity].
  destruct (isspace c) eqn:Hc; [congruence|]. intros _. simpl. exact Hc.
Qed.

Lemma single_spaced_rstrip s : single_spaced s = true -> single_spaced (rstrip s) = true.
Proof.
  induction s as [|c r IH]; [reflexivity|]. intros H.
  pose proof (IH (single_spaced_tail _ _ H)) as IHr.
  simpl in H. apply andb_true_iff in H as [Hc _].
  simpl rstrip. destruct (rstrip r) as [|c' r'] eqn:Hr.
  - destruct (isspace c) eqn:Hsp; [reflexivity|]. simpl. now rewrite Hsp.
  - assert (leading_space (String c' r') = leading_space r) as Hl
      by (rewrite <- Hr; apply rstrip_leading; congruence).
    change (single_spaced (String c (String c' r')))
      with ((if isspace c
             then Ascii.eqb c " " && negb (leading_space (String c' r'))
             else true) && single_spaced (String c' r')).
    now rewrite Hl, Hc, IHr.
Qed.

Lemma sub_spaces_fixed b s :
  single_spaced s = true -> (b = true -> leading_space s = false) ->
  sub_spaces b s = s.
Proof.
  revert b. induction s as [|c r IH]; intros b; simpl; [reflexivity|].
  rewrite andb_true_iff. intros [Hc Hr] Hb.
  destruct (isspace c) eqn:Hsp.
  - destruct b; [now specialize (Hb eq_refl)|].
    apply andb_true_iff in Hc as [Hc Hl]. apply Ascii.eqb_eq in Hc as ->.
    apply negb_true_iff in Hl. now rewrite (IH true Hr).
  - rewrite (IH false Hr); [reflexivity|discriminate].
Qed.

Lemma fingerprint_title_again x v :
  fingerprint_title x = Some v ->
  fingerprint_title (Some v) = if truthy v then Some v else None.
Proof.
  destruct x as [t|]; simpl; [|discriminate].
  destruct (truthy t); [|discriminate]. intros [= <-].
  set (v := strip (sub_spaces false (map_chars sub_special (lower t)))).
  destruct (truthy v); [|reflexivity]. f_equal.
  assert (all_chars fingerprint_char v = true) as Hchars.
  { apply all_chars_strip, all_chars_sub_spaces; [reflexivity|].
    rewrite all_chars_map. clear v. induction (lower t) as [|c r IH]; simpl;
      [reflexivity|]. now rewrite fingerprint_char_sub_special. }
  assert (single_spaced v = true) as Hspaced
    by apply single_spaced_rstrip, single_spaced_lstrip, single_spaced_sub_spaces.
  unfold lower.
  rewrite (map_chars_fixed fingerprint_char to_lower v)
    by (assumption || apply fingerprint_char_fixed).
  rewrite (map_chars_fixed fingerprint_char sub_special v)
    by (assumption || apply fingerprint_char_fixed).
  rewrite (sub_spaces_fixed false v Hspaced) by discriminate.
  apply strip_idem.
Qed.

(** C8 (as the code has it): applied to one of their own results [v], the
    two functions return [v] again when [v] is not empty, and [None] when it
    is. *)
Theorem normalizers_applied_twice (x : option string) (v : string) :
  (normalize_sku x = Some v ->
   normalize_sku (Some v) = if truthy v then Some v else None)
  /\ (fingerprint_title x = Some v ->
      fingerprint_title (Some v) = if truthy v then Some v else None).
Proof. split; [apply normalize_sku_again|apply fingerprint_title_again]. Qed.

Lemma normalizers_applied_twice_witness :
  normalize_sku (Some "AB C") = Some "AB C"
  /\ fingerprint_title (Some "dewalt drill") = Some "dewalt drill".
Proof.
  split.
  - apply (proj1 (normalizers_applied_twice (Some "  ab c ") "AB C")).
    reflexivity.
  - apply (proj2 (normalizers_applied_twice (Some "DeWalt Drill!!") "dewalt drill")).
    reflexivity.
Defined.

(** C8, counterexample: a blank identifier is normalized to the empty text,
    and a title of punctuation has the empty text as fingerprint; both
    functions answer [None] on the empty text. *)
Lemma normalizers_on_blank_results :
  normalize_sku (Some " ") = Some "" /\ normalize_sku (Some "") = None
  /\ fingerprint_title (Some "!") = Some "" /\ fingerprint_title (Some "") = None
  /\ ~ (forall x v, normalize_sku x = Some v -> normalize_sku (Some v) = Some v)
  /\ ~ (forall x v, fingerprint_title x = Some v ->
                    fingerprint_title (Some v) = Some v).
Proof.
  repeat split.
  - intros H. specialize (H (Some " ") "" eq_refl). discriminate H.
  - intros H. specialize (H (Some "!") "" eq_refl). discriminate H.
Qed.

(** ** Fingerprint and words *)

Lemma tokens_cons s : exists h t, tokens s = h :: t.
Proof.
  destruct s as [|c r]; simpl; [now eauto|].
  destruct (is_alnum c); [|now eauto]. destruct (tokens r); eauto.
Qed.

Lemma lstrip_sub_spaces u : lstrip (sub_spaces false u) = sub_spaces true u.
Proof.
  destruct u as [|c r]; simpl; [reflexivity|].
  destruct (isspace c) eqn:Hc; simpl.
  - apply lstrip_no_leading, leading_space_sub_spaces.
  - now rewrite Hc.
Qed.

Lemma rstrip_space_head r :
  rstrip (String " " r)
  = match rstrip r with
    | EmptyString => EmptyString
    | String _ _ as r' => String " " r'
    end.
Proof. simpl. now destruct (rstrip r). Qed.

Lemma rstrip_fingerprint_words s :
  let spaced b := sub_spaces b (map_chars sub_special (lower s)) in
  rstrip (spaced true) = join_words (words s)
  /\ forall h t, tokens s = h :: t ->
       rstrip (spaced false) = h ++ sep_join (List.filter truthy t).
Proof.
  unfold words, lower. induction s as [|c r [IH1 IH2]]; cbv zeta.
  - split; [reflexivity|]. now intros h t [= <- <-].
  - cbn [map_chars sub_spaces tokens].
    destruct (tokens_cons r) as (h' & t' & Hr).
    destruct (is_alnum c) eqn:Hc.
    + destruct (alnum_kept c Hc) as [-> Hsp]. rewrite Hsp, Hr.
      rewrite !rstrip_head by assumption. rewrite (IH2 h' t' Hr). split.
      * reflexivity.
      * now intros h t [= <- <-].
    + rewrite (not_alnum_special c Hc). split; [exact IH1|].
      intros h t [= <- <-]. rewrite rstrip_space_head. cbv zeta in IH1.
      rewrite IH1. cbn [String.append].
      destruct (List.filter truthy (tokens r)) as [|w ws] eqn:Hw;
        [reflexivity|].
      assert (truthy w = true) as Hne.
      { assert (In w (List.filter truthy (tokens r))) as Hin
          by (rewrite Hw; simpl; auto).
        now apply filter_In in Hin. }
      destruct w as [|a w]; [discriminate|]. reflexivity.
Qed.

Lemma fingerprint_title_words s :
  s <> "" -> fingerprint_title (Some s) = Some (join_words (words s)).
Proof.
  intros Hs. unfold fingerprint_title. apply truthy_true in Hs. rewrite Hs.
  unfold strip. rewrite lstrip_sub_spaces.
  now rewrite (proj1 (rstrip_fingerprint_words s)).
Qed.

(** C9 (as the code has it): two non-empty titles with the same words (the
    runs of letters and digits, compared without regard to case, whatever
    punctuation or spacing separates them) have the same fingerprint, which
    is those words in lower case joined by single spaces; in particular
    ["DeWalt Drill!!"] and ["dewalt   drill"] have the same fingerprint. *)
Theorem fingerprint_title_same_words (s t : string) :
  s <> "" -> t <> "" -> words s = words t ->
  fingerprint_title (Some s) = fingerprint_title (Some t)
  /\ fingerprint_title (Some s) = Some (join_words (words s))
  /\ fingerprint_title (Some "DeWalt Drill!!")
     = fingerprint_title (Some "dewalt   drill").
Proof.
  intros Hs Ht Hw. rewrite !fingerprint_title_words by assumption.
  rewrite Hw. repeat split; reflexivity.
Qed.

Lemma fingerprint_title_same_words_witness :
  fingerprint_title (Some "Makita  DHP-485, 18V")
  = fingerprint_title (Some "makita dhp 485 (18v)").
Proof.
  apply (fingerprint_title_same_words
           "Makita  DHP-485, 18V" "makita dhp 485 (18v)");
    [discriminate|discriminate|reflexivity].
Defined.

(** C9, counterexample: titles with the same letters and digits, one with a
    hyphen or a space between two of them; the hyphen becomes a space of
    the fingerprint and the space stays. *)
Lemma fingerprint_title_punctuation_splits :
  differ_only_by_punctuation_casing_spacing "DCD-776" "DCD776"
  /\ differ_only_by_punctuation_casing_spacing "DCD 776" "DCD776"
  /\ fingerprint_title (Some "DCD-776") = Some "dcd 776"
  /\ fingerprint_title (Some "DCD 776") = Some "dcd 776"
  /\ fingerprint_title (Some "DCD776") = Some "dcd776"
  /\ ~ (forall s t,
          differ_only_by_punctuation_casing_spacing s t ->
          fingerprint_title (Some s) = fingerprint_title (Some t)).
Proof.
  repeat split.
  intros H. specialize (H "DCD-776" "DCD776" eq_refl). discriminate H.
Qed.

(** ** End-to-end examples *)

(** Of two entries with the same SKU up to case, the first is kept. *)
Example unique_components_first_wins :
  map (fun c => (internal_sku c, cost_ex_vat_pence c))
      (unique_components [ Component "ABC" "" "Makita" 100 true "MAK";
                           Component "abc" "" "Makita" 999 true "MAK" ])
  = [("ABC", 100%Z)].
Proof. vm_compute. reflexivity. Qed.

(** A bundle whose two references are in the catalog: one BOM, two links
    with quantities 1 and 2, no unmatched record. *)
Example resolved_bundle :
  let out := create_boms_and_listings
               [Sample.row "Makita twin pack" "MAKDJR186+2xBL1850"]
               [Sample.entry "MAKDJR186" ""; Sample.entry "BL1850" ""] in
  map bundle_sku (boms out) = ["MAKDJR186+2xBL1850"]
  /\ bom_components_list out
     = [ BomComponent "MAKDJR186+2xBL1850" "MAKDJR186" 1;
         BomComponent "MAKDJR186+2xBL1850" "BL1850" 2 ]
  /\ unmatched out = [].
Proof. repeat split. Qed.

(** A listing no tier reaches and whose title overlaps no description: no
    link and one unmatched record. *)
Example unmatched_listing :
  let out := create_boms_and_listings
               [Sample.row "Unrelated title" "ZZZ999"]
               Sample.combi_catalog in
  bom_components_list out = []
  /\ unmatched out = [Unmatched "ZZZ999" "Unrelated title" None].
Proof. repeat split. Qed.

(** * Further properties *)

(** ** Deduplication *)

Lemma dedup_from_In seen catalog c :
  In c (dedup_from seen catalog) ->
  In c catalog /\ upper (internal_sku c) ∉ seen.
Proof.
  revert seen. induction catalog as [|a rest IH]; intros seen; simpl; [tauto|].
  destruct (bool_decide_reflect (upper (internal_sku a) ∈ seen)) as [Hin|Hout].
  - intros H. destruct (IH _ H). auto.
  - intros [<-|H]; [auto|]. destruct (IH _ H) as [? Hn]. split; [auto|].
    intros Hs. apply Hn. apply elem_of_union. auto.
Qed.

Lemma dedup_from_NoDup seen catalog : NoDup (sku_keys (dedup_from seen catalog)).
Proof.
  revert seen. induction catalog as [|a rest IH]; intros seen; simpl;
    [constructor|].
  destruct (bool_decide_reflect (upper (internal_sku a) ∈ seen)) as [Hin|Hout];
    [apply IH|].
  simpl. constructor; [|apply IH].
  rewrite list_elem_of_In. unfold sku_keys. rewrite in_map_iff.
  intros (c & Hk & Hc). apply dedup_from_In in Hc as [_ Hn].
  apply Hn. apply elem_of_union. left. apply elem_of_singleton. exact Hk.
Qed.

Lemma dedup_from_covers seen catalog c :
  In c catalog ->
  upper (internal_sku c) ∈ seen \/
  In (upper (internal_sku c)) (sku_keys (dedup_from seen catalog)).
Proof.
  revert seen. induction catalog as [|a rest IH]; intros seen; simpl; [tauto|].
  destruct (bool_decide_reflect (upper (internal_sku a) ∈ seen)) as [Hin|Hout].
  - intros [<-|H]; [auto|]. now apply IH.
  - intros [<-|H]; [right; simpl; auto|].
    destruct (IH ({[upper (internal_sku a)]} ∪ seen) H) as [Hs|Hk].
    + apply elem_of_union in Hs as [Hs|Hs]; [|auto].
      apply elem_of_singleton in Hs. right. simpl. auto.
    + right. simpl. auto.
Qed.

Lemma dedup_from_sublist seen catalog : sublist (dedup_from seen catalog) catalog.
Proof.
  revert seen. induction catalog as [|a rest IH]; intros seen; simpl;
    [constructor|].
  destruct (bool_decide (upper (internal_sku a) ∈ seen)).
  - apply sublist_cons, IH.
  - apply sublist_skip, IH.
Qed.

Lemma dedup_from_fixed seen catalog :
  NoDup (sku_keys catalog) ->
  (forall c, In c catalog -> upper (internal_sku c) ∉ seen) ->
  dedup_from seen catalog = catalog.
Proof.
  revert seen. induction catalog as [|a rest IH]; intros seen Hnd Hseen; simpl;
    [reflexivity|].
  rewrite bool_decide_eq_false_2 by (apply Hseen; simpl; auto).
  f_equal. inversion Hnd as [|k ks Hk Hks]; subst. apply IH; [assumption|].
  intros c Hc Hin. apply elem_of_union in Hin as [Hin|Hin].
  - apply elem_of_singleton in Hin. apply Hk. rewrite list_elem_of_In.
    unfold sku_keys. rewrite in_map_iff. eauto.
  - apply (Hseen c); simpl; auto.
Qed.

(** X1: what [create_component_sql] keeps has no two entries with the same
    uppercased SKU, and every SKU of the input is still there up to case. *)
Theorem unique_components_keys (components : list component) :
  NoDup (sku_keys (unique_components components))
  /\ forall comp, In comp components ->
       In (upper (internal_sku comp)) (sku_keys (unique_components components)).
Proof.
  split; [apply dedup_from_NoDup|].
  intros comp Hin. destruct (dedup_from_covers ∅ _ _ Hin) as [H|H];
    [|exact H].
  now apply not_elem_of_empty in H.
Qed.

(** X2: the kept entries are entries of the input in their input order, no
    more of them than the input has, and for each SKU the one kept is the
    first of the input with that SKU up to case. *)
Theorem unique_components_first_occurrence (components : list component) :
  sublist (unique_components components) components
  /\ (List.length (unique_components components) <= List.length components)%nat
  /\ forall sku_upper,
       List.find (fun comp => String.eqb (upper (internal_sku comp)) sku_upper)
                 (unique_components components)
       = List.find (fun comp => String.eqb (upper (internal_sku comp)) sku_upper)
                   components.
Proof.
  pose proof (dedup_from_sublist ∅ components) as Hsub.
  split; [exact Hsub|]. split; [exact (sublist_length _ _ Hsub)|].
  intros sku_upper. apply find_unique_components.
  intros c1 c2 _ _ E. now rewrite E.
Qed.

(** X3: deduplicating twice changes nothing more, and a catalog without two
    entries of the same uppercased SKU is kept whole. *)
Theorem unique_components_idempotent (components : list component) :
  unique_components (unique_components components) = unique_components components
  /\ (NoDup (sku_keys components) -> unique_components components = components).
Proof.
  assert (forall l, NoDup (sku_keys l) -> unique_components l = l) as Hfix.
  { intros l Hl. apply dedup_from_fixed; [exact Hl|].
    intros c _. apply not_elem_of_empty. }
  split; [|apply Hfix]. apply Hfix, dedup_from_NoDup.
Qed.

Lemma unique_components_idempotent_witness :
  unique_components Sample.combi_catalog = Sample.combi_catalog.
Proof.
  apply (proj2 (unique_components_idempotent Sample.combi_catalog)).
  repeat constructor; rewrite list_elem_of_In; simpl; intuition discriminate.
Defined.

(** ** Matcher: what an answer is *)

Lemma tier_containment pattern_upper t sku_upper :
  In t (tiers pattern_upper) -> t sku_upper = true ->
  containment_tier pattern_upper sku_upper = true.
Proof.
  unfold tiers. intros [<-|[<-|Ht]] Hhit; [|exact Hhit|].
  - unfold exact_tier in Hhit. apply String.eqb_eq in Hhit as ->.
    unfold containment_tier. now rewrite contains_refl.
  - unfold prefix_tiers in Ht. apply in_flat_map in Ht as (prefix & _ & Ht).
    unfold containment_tier. destruct Ht as [<-|[<-|[]]].
    + unfold add_prefix_tier in Hhit. apply andb_true_iff in Hhit as [_ E].
      apply String.eqb_eq in E as ->. now rewrite contains_app_l.
    + unfold strip_prefix_tier in Hhit. apply andb_true_iff in Hhit as [_ E].
      apply String.eqb_eq in E as ->. rewrite contains_slice_from.
      apply orb_true_r.
Qed.

Lemma first_hit_some t catalog sku :
  first_hit t catalog = Some sku ->
  exists comp, In comp catalog /\ internal_sku comp = sku /\
               t (upper sku) = true.
Proof.
  unfold first_hit. destruct (List.find _ catalog) as [c|] eqn:Hf;
    [|discriminate].
  intros [= <-]. apply find_some in Hf as [Hin Ht]. exists c. auto.
Qed.

Lemma first_tier_some ts catalog sku :
  first_tier ts catalog = Some sku ->
  exists t comp, In t ts /\ In comp catalog /\ internal_sku comp = sku /\
                 t (upper sku) = true.
Proof.
  induction ts as [|t ts IH]; simpl; [discriminate|].
  destruct (first_hit t catalog) as [s|] eqn:Hh.
  - intros [= ->]. destruct (first_hit_some _ _ _ Hh) as (c & ? & ? & ?).
    exists t, c. auto.
  - intros H. destruct (IH H) as (t' & c & ? & ? & ? & ?). exists t', c. auto.
Qed.

Lemma match_component_to_import_sound_aux component_pattern all_components sku :
  match_component_to_import component_pattern all_components = Some sku ->
  exists comp,
    In comp all_components /\ internal_sku comp = sku /\
    containment_tier (upper component_pattern) (upper sku) = true.
Proof.
  rewrite match_component_first_tier. intros H.
  destruct (first_tier_some _ _ _ H) as (t & comp & Ht & Hin & Hsku & Hhit).
  exists comp. repeat split; try assumption.
  exact (tier_containment _ _ _ Ht Hhit).
Qed.

(** X4: an answer of the matcher is the SKU, as the catalog spells it, of a
    catalog entry whose uppercased SKU contains the uppercased pattern or is
    contained in it. *)
Theorem match_component_to_import_sound
    (component_pattern : string) (all_components : list component)
    (sku : string) :
  match_component_to_import component_pattern all_components = Some sku ->
  exists comp,
    In comp all_components /\ internal_sku comp = sku /\
    (contains (upper component_pattern) (upper sku)
     || contains (upper sku) (upper component_pattern)) = true.
Proof. apply match_component_to_import_sound_aux. Qed.

Lemma match_component_to_import_sound_witness :
  exists comp,
    In comp [Sample.entry "DEWDCB" ""; Sample.entry "DCB" ""] /\
    internal_sku comp = "DCB" /\
    (contains (upper "dcb") (upper "DCB")
     || contains (upper "DCB") (upper "dcb")) = true.
Proof.
  apply (match_component_to_import_sound "dcb"
           [Sample.entry "DEWDCB" ""; Sample.entry "DCB" ""] "DCB").
  reflexivity.
Defined.

(** X5: the prefix loop never decides: the matcher's answer is that of the
    exact scan, else that of the containment scan; and it is [None] exactly
    when no catalog SKU contains the pattern or is contained in it, both
    uppercased. *)
Theorem match_component_to_import_two_scans
    (component_pattern : string) (all_components : list component) :
  let pattern_upper := upper component_pattern in
  match_component_to_import component_pattern all_components
  = (scan_equal pattern_upper all_components
     orelse scan_partial pattern_upper all_components)
  /\ (match_component_to_import component_pattern all_components = None <->
      forall comp, In comp all_components ->
        contains pattern_upper (upper (internal_sku comp))
        || contains (upper (internal_sku comp)) pattern_upper = false).
Proof.
  cbv zeta.
  assert (match_component_to_import component_pattern all_components
          = (scan_equal (upper component_pattern) all_components
             orelse scan_partial (upper component_pattern) all_components))
    as Heq.
  { unfold match_component_to_import, or_else.
    destruct (scan_equal _ all_components); [reflexivity|].
    destruct (scan_partial _ all_components) eqn:Hp; [reflexivity|].
    now apply prefix_tiers_never_decide. }
  split; [exact Heq|]. split.
  - intros Hnone comp Hin.
    rewrite match_component_first_tier, first_tier_none in Hnone.
    apply (Hnone (containment_tier (upper component_pattern)) comp);
      [|exact Hin].
    unfold tiers. simpl. auto.
  - intros Hnone. rewrite match_component_first_tier, first_tier_none.
    intros t comp Ht Hin. destruct (t (upper (internal_sku comp))) eqn:Hhit;
      [|reflexivity].
    pose proof (tier_containment _ _ _ Ht Hhit) as Hc.
    unfold containment_tier in Hc. now rewrite (Hnone comp Hin) in Hc.
Qed.

Lemma to_upper_to_lower c : to_upper (to_lower c) = to_upper c.
Proof. ascii_cases c. Qed.

Lemma to_lower_to_upper c : to_lower (to_upper c) = to_lower c.
Proof. ascii_cases c. Qed.

Lemma upper_lower s : upper (lower s) = upper s.
Proof.
  unfold upper, lower. induction s as [|c r IH]; simpl; [reflexivity|].
  now rewrite to_upper_to_lower, IH.
Qed.

Lemma lower_upper s : lower (upper s) = lower s.
Proof.
  unfold upper, lower. induction s as [|c r IH]; simpl; [reflexivity|].
  now rewrite to_lower_to_upper, IH.
Qed.

(** X6: the matcher does not see the case of the pattern: the upper-case
    form of a pattern gets the answer of the pattern, and so does the
    lower-case form of a pattern of 7-bit ASCII. *)
Theorem match_component_to_import_pattern_case
    (component_pattern : string) (all_components : list component) :
  match_component_to_import (upper component_pattern) all_components
  = match_component_to_import component_pattern all_components
  /\ (all_chars is_ascii component_pattern = true ->
      match_component_to_import (lower component_pattern) all_components
      = match_component_to_import component_pattern all_components).
Proof.
  unfold match_component_to_import. rewrite upper_idem, upper_lower.
  split; [reflexivity|]. intros _. reflexivity.
Qed.

Lemma match_component_to_import_pattern_case_witness :
  match_component_to_import (lower "DcB")
    [Sample.entry "DEWDCB" ""; Sample.entry "DCB" ""]
  = match_component_to_import "DcB"
      [Sample.entry "DEWDCB" ""; Sample.entry "DCB" ""].
Proof.
  apply (proj2 (match_component_to_import_pattern_case "DcB"
                  [Sample.entry "DEWDCB" ""; Sample.entry "DCB" ""])).
  reflexivity.
Defined.

(** X7: an answer of the matcher is the SKU of the first catalog entry with
    that SKU up to case, so it is one of the SKUs that deduplication keeps. *)
Theorem match_component_to_import_answer_kept
    (component_pattern : string) (all_components : list component)
    (sku : string) :
  match_component_to_import component_pattern all_components = Some sku ->
  In sku (map internal_sku (unique_components all_components))
  /\ exists comp,
       List.find (fun c => String.eqb (upper (internal_sku c)) (upper sku))
                 all_components = Some comp
       /\ internal_sku comp = sku.
Proof.
  intros H.
  assert (exists comp, In comp (unique_components all_components)
                       /\ internal_sku comp = sku) as (comp & Hin & Hsku).
  { rewrite <- match_component_unique in H.
    destruct (match_component_to_import_sound_aux
                component_pattern (unique_components all_components) sku H)
      as (c & ? & ? & _). eauto. }
  split; [apply in_map_iff; eauto|].
  exists comp. split; [|exact Hsku].
  rewrite <- (find_unique_components
                (fun c => String.eqb (upper (internal_sku c)) (upper sku)))
    by (intros c1 c2 _ _ E; now rewrite E).
  pose proof (dedup_from_NoDup ∅ all_components) as Hnd.
  fold (unique_components all_components) in Hnd.
  revert Hin Hnd. subst sku.
  induction (unique_components all_components) as [|a l IH]; simpl; [tauto|].
  intros [->|Hin] Hnd; [now rewrite String.eqb_refl|].
  inversion Hnd as [|k ks Hk Hks]; subst.
  destruct (String.eqb_spec (upper (internal_sku a)) (upper (internal_sku comp)))
    as [E|_]; [|now apply IH].
  exfalso. apply Hk. rewrite E, list_elem_of_In. unfold sku_keys.
  apply in_map_iff. eauto.
Qed.

Lemma match_component_to_import_answer_kept_witness :
  In "DCB" (map internal_sku
              (unique_components [Sample.entry "DEWDCB" ""; Sample.entry "DCB" ""])).
Proof.
  apply (match_component_to_import_answer_kept "dcb"
           [Sample.entry "DEWDCB" ""; Sample.entry "DCB" ""] "DCB").
  reflexivity.
Defined.

Lemma contains_empty s : contains "" s = true.
Proof. now destruct s. Qed.

(** X8: a catalog entry with an empty SKU is contained in every pattern, so
    with such an entry in the catalog the matcher always answers. *)
Theorem match_component_to_import_empty_sku
    (component_pattern : string) (all_components : list component)
    (comp : component) :
  In comp all_components -> internal_sku comp = "" ->
  exists sku,
    match_component_to_import component_pattern all_components = Some sku.
Proof.
  intros Hin Hsku.
  destruct (match_component_to_import component_pattern all_components)
    as [sku|] eqn:Hm; [eauto|].
  rewrite match_component_first_tier, first_tier_none in Hm.
  specialize (Hm (containment_tier (upper component_pattern)) comp).
  unfold tiers in Hm. simpl in Hm. rewrite Hsku in Hm.
  unfold containment_tier in Hm. cbn [upper map_chars] in Hm.
  rewrite contains_empty, orb_true_r in Hm. discriminate Hm; auto.
Qed.

Lemma match_component_to_import_empty_sku_witness :
  exists sku,
    match_component_to_import "ZZZ999"
      [Sample.entry "ABC" ""; Sample.entry "" "No stock code"] = Some sku.
Proof.
  apply (match_component_to_import_empty_sku "ZZZ999"
           [Sample.entry "ABC" ""; Sample.entry "" "No stock code"]
           (Sample.entry "" "No stock code"));
    [simpl; auto|reflexivity].
Defined.

(** ** Aggregator: further properties *)

(** X9: listings are resolved one by one: the outputs for two lists of
    listings put end to end are the outputs for each, put end to end. *)
Theorem create_boms_and_listings_app
    (first second : list listing) (all_components : list component) :
  let out := create_boms_and_listings (first ++ second) all_components in
  let out1 := create_boms_and_listings first all_components in
  let out2 := create_boms_and_listings second all_components in
  boms out = (boms out1 ++ boms out2)%list
  /\ bom_components_list out
     = (bom_components_list out1 ++ bom_components_list out2)%list
  /\ listing_memory out = (listing_memory out1 ++ listing_memory out2)%list
  /\ unmatched out = (unmatched out1 ++ unmatched out2)%list.
Proof.
  unfold create_boms_and_listings. cbv zeta.
  rewrite !process_listings_from. simpl.
  rewrite !List.map_app, List.flat_map_app, List.filter_app, List.map_app. auto.
Qed.

(** X10: every link points to things that exist: its component SKU is the
    SKU of a catalog entry and its BOM SKU is the bundle SKU of a BOM of the
    same output; every listing memory entry and every unmatched record also
    carries the bundle SKU of a BOM of the output. *)
Theorem create_boms_and_listings_references
    (listings : list listing) (all_components : list component) :
  let out := create_boms_and_listings listings all_components in
  (forall link, In link (bom_components_list out) ->
     In (component_sku link) (map internal_sku all_components)
     /\ In (bom_sku link) (map bundle_sku (boms out)))
  /\ (forall entry, In entry (listing_memory out) ->
        lm_sku entry = lm_bom_sku entry
        /\ In (lm_bom_sku entry) (map bundle_sku (boms out)))
  /\ (forall record, In record (unmatched out) ->
        In (um_seller_sku record) (map bundle_sku (boms out))).
Proof.
  unfold create_boms_and_listings. cbv zeta.
  rewrite process_listings_from. simpl.
  assert (forall l, In l listings ->
            In (seller_sku l) (map bundle_sku (map bom_of listings))) as Hbom.
  { intros l Hl. rewrite map_map. apply in_map_iff. exists l. auto. }
  split; [|split].
  - intros link H. split.
    + apply in_flat_map in H as (l & Hl & Hlink).
      unfold links_of in Hlink.
      apply in_map_iff in Hlink as ([sku qty] & <- & Hm).
      simpl. unfold matched_components in Hm.
      destruct (match_parsed _ all_components) as [|m0 ms] eqn:Hmp.
      * apply title_scan_In in Hm as (_ & comp & Hc & [= -> _]).
        apply in_map_iff. eauto.
      * rewrite <- Hmp in Hm.
        apply match_parsed_In in Hm as (pattern & _ & Hma).
        apply match_component_to_import_sound_aux in Hma as (comp & ? & ? & _).
        apply in_map_iff. eauto.
    + apply in_flat_map in H as (l & Hl & Hlink).
      unfold links_of in Hlink. apply in_map_iff in Hlink as (m & <- & _).
      simpl. now apply Hbom.
  - intros entry H. apply in_map_iff in H as (l & <- & Hl). simpl.
    split; [reflexivity|]. now apply Hbom.
  - intros record H. apply in_map_iff in H as (l & <- & Hl). simpl.
    apply filter_In in Hl as [Hl _]. now apply Hbom.
Qed.

Lemma match_component_nil component_pattern :
  match_component_to_import component_pattern [] = None.
Proof.
  unfold match_component_to_import. cbn [scan_equal scan_partial or_else].
  now apply prefix_tiers_never_decide.
Qed.

(** X11: with an empty catalog nothing is linked and every listing is
    reported unmatched, in order. *)
Theorem create_boms_and_listings_empty_catalog (listings : list listing) :
  bom_components_list (create_boms_and_listings listings []) = []
  /\ unmatched (create_boms_and_listings listings [])
     = map unmatched_of listings.
Proof.
  unfold create_boms_and_listings. rewrite process_listings_from. simpl.
  assert (forall l, matched_components l [] = []) as Hnone.
  { intros l. unfold matched_components.
    assert (forall parsed, match_parsed parsed [] = []) as ->
      by (induction parsed as [|[p q] parsed IH]; simpl;
          rewrite ?match_component_nil; auto).
    reflexivity. }
  split.
  - induction listings as [|l listings IH]; simpl; [reflexivity|].
    now rewrite Hnone, IH.
  - f_equal. induction listings as [|l listings IH]; simpl; [reflexivity|].
    unfold no_match at 1. now rewrite Hnone, IH.
Qed.

Lemma length_filter_le {A} (p : A -> bool) l :
  (List.length (List.filter p l) <= List.length l)%nat.
Proof.
  induction l as [|a l IH]; simpl; [lia|]. destruct (p a); simpl; lia.
Qed.

Lemma length_filter_all {A} (p : A -> bool) l :
  List.length (List.filter p l) = List.length l <->
  forall x, In x l -> p x = true.
Proof.
  induction l as [|a l IH]; simpl; [tauto|].
  pose proof (length_filter_le p l) as Hle.
  destruct (p a) eqn:Ha; simpl.
  - split.
    + intros [= H] x [<-|Hx]; [assumption|]. now apply IH.
    + intros H. f_equal. apply IH. auto.
  - split; [lia|]. intros H. specialize (H a (or_introl eq_refl)). congruence.
Qed.

(** X12: there are never more unmatched records than listings, and the link
    list is empty exactly when there are as many unmatched records as
    listings, that is when every listing is reported unmatched. *)
Theorem create_boms_and_listings_no_link
    (listings : list listing) (all_components : list component) :
  let out := create_boms_and_listings listings all_components in
  (List.length (unmatched out) <= List.length listings)%nat
  /\ (bom_components_list out = [] <->
      List.length (unmatched out) = List.length listings).
Proof.
  unfold create_boms_and_listings. cbv zeta.
  rewrite process_listings_from. simpl. rewrite length_map.
  split; [apply length_filter_le|].
  rewrite length_filter_all. unfold no_match.
  induction listings as [|l listings IH]; simpl; [tauto|]. split.
  - intros H. apply app_eq_nil in H as [Hl Hrest].
    intros x [<-|Hx]; [|now apply IH].
    unfold links_of in Hl. apply map_eq_nil in Hl. now rewrite Hl.
  - intros H. rewrite (proj2 IH) by auto.
    specialize (H l (or_introl eq_refl)).
    destruct (matched_components l all_components); [reflexivity|discriminate].
Qed.

(** ** Strings: append, reverse, slices *)

Lemma append_cons c a b : String c a ++ b = String c (a ++ b).
Proof. reflexivity. Qed.

Lemma append_empty_l b : "" ++ b = b.
Proof. reflexivity. Qed.

Lemma append_empty_r s : s ++ "" = s.
Proof.
  induction s as [|c r IH]; [reflexivity|]. now rewrite append_cons, IH.
Qed.

Lemma append_assoc a b c : (a ++ b) ++ c = a ++ (b ++ c).
Proof.
  induction a as [|x a IH]; [reflexivity|]. now rewrite !append_cons, IH.
Qed.

Lemma all_chars_app p a b :
  all_chars p (a ++ b) = all_chars p a && all_chars p b.
Proof.
  induction a as [|x a IH]; [reflexivity|].
  rewrite append_cons. simpl. now rewrite IH, andb_assoc.
Qed.

Lemma rev_onto_app acc s : rev_onto acc s = reverse s ++ acc.
Proof.
  unfold reverse. revert acc. induction s as [|c r IH]; intros acc; simpl;
    [reflexivity|].
  rewrite (IH (String c acc)), (IH (String c "")), append_assoc. reflexivity.
Qed.

Lemma reverse_app a b : reverse (a ++ b) = reverse b ++ reverse a.
Proof.
  induction a as [|x a IH].
  - change (reverse b = reverse b ++ ""). now rewrite append_empty_r.
  - change (reverse (String x (a ++ b)) = reverse b ++ reverse (String x a)).
    unfold reverse at 1 3. simpl. rewrite !rev_onto_app, IH.
    apply append_assoc.
Qed.

Lemma reverse_cons c s : reverse (String c s) = reverse s ++ String c "".
Proof. unfold reverse at 1. simpl. apply rev_onto_app. Qed.

Lemma reverse_involutive s : reverse (reverse s) = s.
Proof.
  induction s as [|c r IH]; [reflexivity|].
  rewrite reverse_cons, reverse_app, IH. reflexivity.
Qed.

Lemma span_digits_app s d t : span_digits s = (d, t) -> s = d ++ t.
Proof.
  revert d t. induction s as [|c r IH]; simpl; intros d t.
  - now intros [= <- <-].
  - destruct (isdigit c).
    + destruct (span_digits r) as [d' t'] eqn:Hr. intros [= <- <-].
      rewrite append_cons. now rewrite <- (IH _ _ eq_refl).
    + now intros [= <- <-].
Qed.

Lemma all_chars_before_eol p s :
  all_chars p s = true -> all_chars p (before_eol s) = true.
Proof.
  induction s as [|c r IH]; [reflexivity|]. intros H.
  simpl in H. apply andb_true_iff in H as [Hc Hr]. simpl before_eol.
  destruct r as [|c' r'].
  - destruct (is_newline c); simpl; [reflexivity|]. now rewrite Hc.
  - change (all_chars p (String c (before_eol (String c' r'))))
      with (p c && all_chars p (before_eol (String c' r'))).
    now rewrite Hc, IH.
Qed.

Lemma newline_space c : is_newline c = true -> isspace c = true.
Proof. ascii_cases c. Qed.

Lemma before_eol_stripped s : rstrip s = s -> before_eol s = s.
Proof.
  induction s as [|c r IH]; [reflexivity|]. intros H.
  simpl in H. simpl before_eol. destruct r as [|c' r'].
  - simpl in H. destruct (is_newline c) eqn:Hn; [|reflexivity].
    rewrite (newline_space c Hn) in H. discriminate.
  - destruct (rstrip (String c' r')) as [|c'' r''] eqn:Hr.
    + destruct (isspace c); discriminate.
    + injection H as H. rewrite IH; [reflexivity|]. congruence.
Qed.

Lemma rstrip_strip s : rstrip (strip s) = strip s.
Proof. unfold strip. apply rstrip_idem. Qed.

Lemma leading_space_strip s : leading_space (strip s) = false.
Proof. unfold strip. apply leading_space_rstrip, leading_space_lstrip. Qed.

Lemma rstrip_fixed_suffix a b :
  rstrip (a ++ b) = a ++ b -> b <> "" -> all_chars isspace b = false.
Proof.
  induction a as [|c a IH]; intros H Hb.
  - rewrite append_empty_l in H.
    destruct (all_chars isspace b) eqn:Hs; [|reflexivity].
    rewrite (rstrip_spaces b Hs) in H. congruence.
  - rewrite append_cons in H. simpl in H.
    destruct (rstrip (a ++ b)) as [|c' r'] eqn:Hr.
    + destruct (isspace c); [discriminate|]. injection H as H.
      destruct a; [rewrite append_empty_l in H; congruence|].
      rewrite append_cons in H. discriminate.
    + injection H as H. apply IH; [congruence|assumption].
Qed.

(** ** Parser: the shapes and the patterns *)

Lemma match_qty_prefix_shape part digits rest :
  match_qty_prefix part = Some (digits, rest) ->
  exists c,
    before_eol part = digits ++ String c rest /\ is_x c = true /\
    rest <> "" /\ all_chars is_dot rest = true.
Proof.
  unfold match_qty_prefix.
  destruct (span_digits (before_eol part)) as [d t] eqn:Hs.
  apply span_digits_app in Hs.
  destruct d as [|c0 d]; [discriminate|]. destruct t as [|c t]; [discriminate|].
  destruct (is_x c) eqn:Hx; [|discriminate].
  destruct (truthy t) eqn:Ht; [|discriminate].
  destruct (all_chars is_dot t) eqn:Hd; [|discriminate].
  intros [= <- <-]. exists c. apply truthy_true in Ht. auto.
Qed.

Lemma match_qty_suffix_shape part digits rest :
  match_qty_suffix part = Some (rest, digits) ->
  exists c,
    before_eol part = rest ++ String "(" (String c (digits ++ ")")) /\
    is_x c = true /\ rest <> "" /\ all_chars is_dot rest = true.
Proof.
  unfold match_qty_suffix.
  destruct (reverse (before_eol part)) as [|close r] eqn:Hrev; [discriminate|].
  destruct (span_digits r) as [d t] eqn:Hs. apply span_digits_app in Hs.
  destruct d as [|c0 d]; [discriminate|]. destruct t as [|c t]; [discriminate|].
  destruct t as [|open t]; [discriminate|].
  destruct (Ascii.eqb_spec close ")") as [->|]; [|discriminate].
  destruct (is_x c) eqn:Hx; [|discriminate].
  destruct (Ascii.eqb_spec open "(") as [->|]; [|discriminate].
  destruct (truthy t) eqn:Ht; [|discriminate].
  destruct (all_chars is_dot t) eqn:Hd; [|discriminate].
  intros [= <- <-]. exists c.
  assert (t <> "") as Hne by now apply truthy_true.
  repeat split; try assumption.
  - rewrite <- (reverse_involutive (before_eol part)), Hrev, Hs.
    rewrite reverse_cons, reverse_app, !reverse_cons.
    rewrite !append_assoc. reflexivity.
  - destruct t; [congruence|]. apply reverse_nonempty.
  - now rewrite all_chars_reverse.
Qed.

Lemma stripped_strip s : strip s <> "" -> stripped (strip s).
Proof.
  intros H. split; [exact H|].
  split; [apply leading_space_strip|apply rstrip_strip].
Qed.

Lemma stripped_fixed s : stripped s -> strip s = s.
Proof.
  intros (_ & Hl & Hr). unfold strip. now rewrite lstrip_no_leading.
Qed.

Lemma strip_nonempty_prefix a b :
  leading_space (a ++ b) = false -> a <> "" -> strip a <> "".
Proof.
  intros Hl Ha Hs. apply strip_empty in Hs.
  destruct a as [|c a]; [congruence|].
  rewrite append_cons in Hl. simpl in Hl, Hs. now rewrite Hl in Hs.
Qed.

Lemma strip_nonempty_suffix a b :
  rstrip (a ++ b) = a ++ b -> b <> "" -> strip b <> "".
Proof.
  intros Hr Hb Hs. apply strip_empty in Hs.
  now rewrite (rstrip_fixed_suffix a b Hr Hb) in Hs.
Qed.

Lemma parse_part_pattern part p q (P : ascii -> bool) :
  stripped part -> parse_part part = (p, q) ->
  p <> "" /\ strip p = p /\ (all_chars P part = true -> all_chars P p = true).
Proof.
  intros Hst. pose proof Hst as (Hne & Hl & Hr).
  pose proof (before_eol_stripped part Hr) as Heol.
  unfold parse_part.
  destruct (match_qty_prefix part) as [[d rest]|] eqn:Hp.
  - apply match_qty_prefix_shape in Hp as (c & Hshape & _ & Hrest & _).
    rewrite Heol in Hshape. intros [= <- <-]. repeat split.
    + apply (strip_nonempty_suffix (d ++ String c "") rest); [|exact Hrest].
      rewrite append_assoc. simpl. rewrite append_cons, append_empty_l.
      now rewrite <- Hshape.
    + apply strip_idem.
    + intros HP. apply all_chars_strip. rewrite Hshape, all_chars_app in HP.
      apply andb_true_iff in HP as [_ HP]. simpl in HP.
      now apply andb_true_iff in HP as [_ HP].
  - destruct (match_qty_suffix part) as [[rest d]|] eqn:Hs.
    + apply match_qty_suffix_shape in Hs as (c & Hshape & _ & Hrest & _).
      rewrite Heol in Hshape. intros [= <- <-]. repeat split.
      * apply (strip_nonempty_prefix rest (String "(" (String c (d ++ ")"))));
          [|exact Hrest].
        now rewrite <- Hshape.
      * apply strip_idem.
      * intros HP. apply all_chars_strip. rewrite Hshape, all_chars_app in HP.
        now apply andb_true_iff in HP as [HP _].
    + intros [= <- <-]. repeat split; [exact Hne|now apply stripped_fixed|auto].
Qed.

Lemma re_split_all_chars (P : ascii -> bool) s part :
  all_chars P s = true -> In part (re_split s) -> all_chars P part = true.
Proof.
  revert part. induction s as [|c r IH]; simpl; intros part HP.
  - now intros [<-|[]].
  - apply andb_true_iff in HP as [Hc Hr]. destruct (is_joiner c).
    + intros [<-|Hin]; [reflexivity|]. now apply IH.
    + destruct (re_split r) as [|h t] eqn:Hsplit.
      * intros [<-|[]]. simpl. now rewrite Hc.
      * intros [<-|Hin].
        -- simpl. rewrite Hc. apply IH; simpl; auto.
        -- apply IH; simpl; auto.
Qed.

Lemma re_split_parts_no_joiner s part :
  In part (re_split s) -> all_chars (fun c => negb (is_joiner c)) part = true.
Proof.
  revert part. induction s as [|c r IH]; simpl; intros part.
  - now intros [<-|[]].
  - destruct (is_joiner c) eqn:Hj.
    + intros [<-|Hin]; [reflexivity|]. now apply IH.
    + destruct (re_split r) as [|h t] eqn:Hsplit.
      * intros [<-|[]]. simpl. now rewrite Hj.
      * intros [<-|Hin].
        -- simpl. rewrite Hj. apply IH; simpl; auto.
        -- apply IH; simpl; auto.
Qed.

(** X13: a pattern returned by the parser is never empty, has no white space
    at either end, contains no joiner, and is made of characters of the
    input only: whatever holds of every character of the input holds of
    every character of the pattern. *)
Theorem parse_compound_sku_patterns (sku p : string) (q : N) :
  In (p, q) (parse_compound_sku (Some sku)) ->
  p <> "" /\ strip p = p
  /\ all_chars (fun c => negb (is_joiner c)) p = true
  /\ forall P : ascii -> bool, all_chars P sku = true -> all_chars P p = true.
Proof.
  rewrite parse_compound_sku_split. intros Hin.
  apply parse_parts_In in Hin as (part & Hpart & Hne & Hpq).
  apply in_map_iff in Hpart as (piece & <- & Hpiece).
  pose proof (stripped_strip piece Hne) as Hst.
  destruct (parse_part_pattern _ _ _ (fun c => negb (is_joiner c)) Hst Hpq)
    as (Hp & Hstrip & Hj).
  repeat split; try assumption.
  - apply Hj, all_chars_strip. now apply (re_split_parts_no_joiner sku).
  - intros P HP.
    destruct (parse_part_pattern _ _ _ P Hst Hpq) as (_ & _ & HPp).
    apply HPp, all_chars_strip. now apply (re_split_all_chars P sku).
Qed.

Lemma parse_compound_sku_patterns_witness :
  "c(x3)" <> "" /\ strip "c(x3)" = "c(x3)"
  /\ all_chars (fun c => negb (is_joiner c)) "c(x3)" = true
  /\ forall P : ascii -> bool,
       all_chars P "a + 2X c(x3) " = true -> all_chars P "c(x3)" = true.
Proof.
  apply (parse_compound_sku_patterns "a + 2X c(x3) " "c(x3)" 2%N).
  vm_compute. right. left. reflexivity.
Defined.

(** ** Parser: reading a quantity marker *)












(** ** Normalizer: shape of the results *)

Lemma fingerprint_title_value t :
  t <> "" ->
  fingerprint_title (Some t)
  = Some (strip (sub_spaces false (map_chars sub_special (lower t)))).
Proof. intros H. apply truthy_true in H. simpl. now rewrite H. Qed.

Lemma fingerprint_title_some x v :
  fingerprint_title x = Some v ->
  exists t, x = Some t /\ t <> "" /\
            v = strip (sub_spaces false (map_chars sub_special (lower t))).
Proof.
  destruct x as [t|]; simpl; [|discriminate].
  destruct (truthy t) eqn:Ht; [|discriminate]. intros [= <-].
  exists t. apply truthy_true in Ht. auto.
Qed.

Lemma fingerprint_chars t :
  all_chars fingerprint_char
    (strip (sub_spaces false (map_chars sub_special (lower t)))) = true.
Proof.
  apply all_chars_strip, all_chars_sub_spaces; [reflexivity|].
  rewrite all_chars_map. induction (lower t) as [|c r IH]; simpl;
    [reflexivity|].
  now rewrite fingerprint_char_sub_special.
Qed.

Lemma fingerprint_single_spaced t :
  single_spaced
    (strip (sub_spaces false (map_chars sub_special (lower t)))) = true.
Proof.
  apply single_spaced_rstrip, single_spaced_lstrip, single_spaced_sub_spaces.
Qed.

Lemma single_spaced_chars v :
  all_chars fingerprint_char v = true -> single_spaced v = true ->
  all_chars (fun c => is_word_char c || Ascii.eqb c " ") v = true
  /\ double_space v = false.
Proof.
  induction v as [|c r IH]; [auto|]. intros Hc Hs.
  simpl in Hc. apply andb_true_iff in Hc as [Hc Hr].
  pose proof (single_spaced_tail _ _ Hs) as Hs'.
  destruct (IH Hr Hs') as [IH1 IH2]. simpl in Hs.
  apply andb_true_iff in Hs as [Hs _].
  cbn [all_chars double_space]. rewrite IH1, IH2, orb_false_r, andb_true_r.
  unfold fingerprint_char in Hc. unfold is_word_char.
  destruct (isspace c) eqn:Hsp.
  - apply andb_true_iff in Hs as [Hsp' Hl]. rewrite Hsp'. split.
    + apply orb_true_r.
    + destruct r as [|c' r']; [reflexivity|]. simpl in Hl.
      apply negb_true_iff in Hl.
      destruct (Ascii.eqb_spec c' " ") as [->|]; [discriminate|reflexivity].
  - rewrite orb_false_r in Hc. rewrite Hc. split; [reflexivity|].
    destruct (Ascii.eqb_spec c " ") as [->|]; [discriminate|reflexivity].
Qed.

Lemma rstrip_fixed_trailing s : rstrip s = s -> trailing_space s = false.
Proof.
  unfold trailing_space. induction s as [|c r IH]; [reflexivity|].
  intros H. rewrite reverse_cons. simpl in H.
  destruct (rstrip r) as [|c' r'] eqn:Hr.
  - destruct (isspace c) eqn:Hc; [discriminate|]. injection H as <-.
    simpl. exact Hc.
  - injection H as H. specialize (IH H).
    destruct (reverse r) as [|a b] eqn:Hrev.
    + rewrite <- H in Hrev. now apply reverse_nonempty in Hrev.
    + rewrite append_cons. exact IH.
Qed.

(** X16: a fingerprint is made of lower-case letters, digits and spaces only,
    neither begins nor ends with a space, and has no two spaces in a row. *)
Theorem fingerprint_title_shape (title : option string) (v : string) :
  fingerprint_title title = Some v ->
  all_chars (fun c => is_word_char c || Ascii.eqb c " ") v = true
  /\ leading_space v = false /\ trailing_space v = false
  /\ double_space v = false.
Proof.
  intros H. apply fingerprint_title_some in H as (t & _ & _ & ->).
  destruct (single_spaced_chars _ (fingerprint_chars t)
              (fingerprint_single_spaced t)) as [Hc Hd].
  repeat split; try assumption.
  - apply leading_space_strip.
  - apply rstrip_fixed_trailing, rstrip_strip.
Qed.

Lemma fingerprint_title_shape_witness :
  all_chars (fun c => is_word_char c || Ascii.eqb c " ") "dewalt dcd 776" = true
  /\ leading_space "dewalt dcd 776" = false
  /\ trailing_space "dewalt dcd 776" = false
  /\ double_space "dewalt dcd 776" = false.
Proof.
  apply (fingerprint_title_shape (Some "  DeWalt --  DCD-776! ") "dewalt dcd 776").
  reflexivity.
Defined.

Lemma strip_map_chars f s :
  (forall c, isspace (f c) = isspace c) ->
  strip (map_chars f s) = map_chars f (strip s).
Proof.
  intros Hf. unfold strip.
  assert (forall u, lstrip (map_chars f u) = map_chars f (lstrip u)) as Hl.
  { induction u as [|c r IH]; simpl; [reflexivity|].
    rewrite Hf. now destruct (isspace c). }
  assert (forall u, rstrip (map_chars f u) = map_chars f (rstrip u)) as Hr.
  { induction u as [|c r IH]; simpl; [reflexivity|].
    rewrite IH, Hf. destruct (rstrip r); simpl; [now destruct (isspace c)|].
    reflexivity. }
  now rewrite Hl, Hr.
Qed.

Lemma isspace_to_lower c : isspace (to_lower c) = isspace c.
Proof. ascii_cases c. Qed.

Lemma truthy_map_chars f s : truthy (map_chars f s) = truthy s.
Proof. now destruct s. Qed.

(** X17: neither function sees the case of its argument: an identifier and
    its upper-case form normalize alike; and for a text of 7-bit ASCII, an
    identifier and its lower-case form normalize alike and a title and its
    two forms have the same fingerprint. *)
Theorem normalizers_ignore_case (s : string) :
  normalize_sku (Some (upper s)) = normalize_sku (Some s)
  /\ (all_chars is_ascii s = true ->
      normalize_sku (Some (lower s)) = normalize_sku (Some s)
      /\ fingerprint_title (Some (upper s)) = fingerprint_title (Some s)
      /\ fingerprint_title (Some (lower s)) = fingerprint_title (Some s)).
Proof.
  assert (truthy (upper s) = truthy s) as Hu by apply truthy_map_chars.
  assert (truthy (lower s) = truthy s) as Hl by apply truthy_map_chars.
  assert (lower (lower s) = lower s) as Hll
    by (rewrite <- (lower_upper (lower s)), upper_lower; apply lower_upper).
  assert (strip (lower s) = lower (strip s)) as Hsl
    by apply (strip_map_chars _ _ isspace_to_lower).
  unfold normalize_sku, fingerprint_title. rewrite Hu, Hl. split.
  - destruct (truthy s); [|reflexivity].
    now rewrite strip_upper, upper_idem.
  - intros _. repeat split; destruct (truthy s); try reflexivity.
    + now rewrite Hsl, upper_lower.
    + now rewrite lower_upper.
    + now rewrite Hll.
Qed.

Lemma normalizers_ignore_case_witness :
  normalize_sku (Some (lower " Mak DJR186 ")) = normalize_sku (Some " Mak DJR186 ")
  /\ fingerprint_title (Some (upper " Mak DJR186 "))
     = fingerprint_title (Some " Mak DJR186 ")
  /\ fingerprint_title (Some (lower " Mak DJR186 "))
     = fingerprint_title (Some " Mak DJR186 ").
Proof.
  apply (proj2 (normalizers_ignore_case " Mak DJR186 ")). reflexivity.
Defined.

(** X18: a normalized identifier has no lower-case letter and no white space
    at either end. *)
Theorem normalize_sku_shape (sku : option string) (v : string) :
  normalize_sku sku = Some v ->
  upper v = v /\ strip v = v
  /\ all_chars (fun c => negb (is_az c)) v = true
  /\ leading_space v = false /\ trailing_space v = false.
Proof.
  destruct sku as [s|]; simpl; [|discriminate].
  destruct (truthy s); [|discriminate]. intros [= <-].
  assert (strip (upper (strip s)) = upper (strip s)) as Hs
    by now rewrite strip_upper, strip_idem.
  repeat split.
  - apply upper_idem.
  - exact Hs.
  - unfold upper. rewrite all_chars_map. clear Hs.
    induction (strip s) as [|c r IH]; simpl; [reflexivity|].
    rewrite IH, andb_true_r. ascii_cases c.
  - rewrite <- Hs. apply leading_space_strip.
  - rewrite <- Hs. apply rstrip_fixed_trailing, rstrip_strip.
Qed.

Lemma normalize_sku_shape_witness :
  upper "MAK DJR186" = "MAK DJR186" /\ strip "MAK DJR186" = "MAK DJR186"
  /\ all_chars (fun c => negb (is_az c)) "MAK DJR186" = true
  /\ leading_space "MAK DJR186" = false /\ trailing_space "MAK DJR186" = false.
Proof.
  apply (normalize_sku_shape (Some "  mak djr186 ") "MAK DJR186"). reflexivity.
Defined.

(** ** Fingerprint and words: the converse *)

Lemma word_char_alnum c :
  is_word_char c = true -> is_alnum c = true /\ to_lower c = c.
Proof. ascii_cases c; intros; split; reflexivity || discriminate. Qed.

Lemma alnum_lower_word_char c :
  is_alnum c = true -> is_word_char (to_lower c) = true.
Proof. ascii_cases c. Qed.

Lemma tokens_word_chars s w :
  In w (tokens s) -> all_chars is_word_char w = true.
Proof.
  revert w. induction s as [|c r IH]; simpl; intros w.
  - now intros [<-|[]].
  - destruct (is_alnum c) eqn:Hc.
    + destruct (tokens r) as [|h t] eqn:Ht.
      * intros [<-|[]]. simpl. now rewrite alnum_lower_word_char.
      * intros [<-|Hin].
        -- simpl. rewrite alnum_lower_word_char by assumption.
           apply IH. simpl. auto.
        -- apply IH. simpl. auto.
    + intros [<-|Hin]; [reflexivity|]. now apply IH.
Qed.

Lemma words_good s w :
  In w (words s) -> w <> "" /\ all_chars is_word_char w = true.
Proof.
  unfold words. intros H. apply filter_In in H as [Hin Ht].
  split; [now apply truthy_true|]. now apply (tokens_word_chars s).
Qed.

Lemma tokens_app_word w s :
  all_chars is_word_char w = true ->
  tokens (w ++ s)
  = match tokens s with
    | h :: t => (w ++ h) :: t
    | [] => []
    end.
Proof.
  intros Hw. induction w as [|c w IH].
  - rewrite append_empty_l. destruct (tokens_cons s) as (h & t & ->).
    reflexivity.
  - simpl in Hw. apply andb_true_iff in Hw as [Hc Hw].
    destruct (word_char_alnum c Hc) as [Ha Hl].
    rewrite append_cons. simpl. rewrite Ha, Hl, (IH Hw).
    now destruct (tokens_cons s) as (h & t & ->).
Qed.

Lemma tokens_sep_join ws : exists t, tokens (sep_join ws) = "" :: t.
Proof. destruct ws as [|w ws]; simpl; eauto. Qed.

Lemma words_sep_join ws :
  (forall w, In w ws -> w <> "" /\ all_chars is_word_char w = true) ->
  List.filter truthy (tokens (sep_join ws)) = ws.
Proof.
  induction ws as [|w ws IH]; intros Hgood; [reflexivity|].
  destruct (Hgood w (or_introl eq_refl)) as [Hne Hw].
  assert (List.filter truthy (tokens (sep_join ws)) = ws) as IH'
    by (apply IH; intros; apply Hgood; simpl; auto).
  simpl. rewrite (tokens_app_word w _ Hw).
  destruct (tokens_sep_join ws) as (t & Ht). rewrite Ht in IH' |- *.
  rewrite append_empty_r. simpl in IH'. simpl.
  apply truthy_true in Hne. now rewrite Hne, IH'.
Qed.

Lemma words_join_words ws :
  (forall w, In w ws -> w <> "" /\ all_chars is_word_char w = true) ->
  words (join_words ws) = ws.
Proof.
  destruct ws as [|w ws]; intros Hgood; [reflexivity|].
  destruct (Hgood w (or_introl eq_refl)) as [Hne Hw].
  unfold words. simpl. rewrite (tokens_app_word w _ Hw).
  pose proof (words_sep_join ws) as Hrest.
  destruct (tokens_sep_join ws) as (t & Ht). rewrite Ht in Hrest |- *.
  rewrite append_empty_r. simpl in Hrest. simpl.
  apply truthy_true in Hne. rewrite Hne, Hrest; [reflexivity|].
  intros; apply Hgood; simpl; auto.
Qed.

(** X19: two non-empty titles have the same fingerprint exactly when they
    have the same words: the fingerprint loses nothing but the case of the
    letters and what separates the words. *)
Theorem fingerprint_title_iff_words (s t : string) :
  s <> "" -> t <> "" ->
  (fingerprint_title (Some s) = fingerprint_title (Some t)
   <-> words s = words t).
Proof.
  intros Hs Ht. rewrite !fingerprint_title_words by assumption. split.
  - intros [= H]. apply (f_equal words) in H.
    now rewrite !words_join_words in H by apply words_good.
  - now intros ->.
Qed.

Lemma fingerprint_title_iff_words_witness :
  fingerprint_title (Some "DCD-776") = fingerprint_title (Some "dcd 776")
  <-> words "DCD-776" = words "dcd 776".
Proof.
  apply (fingerprint_title_iff_words "DCD-776" "dcd 776"); discriminate.
Defined.

Lemma words_nil s :
  words s = [] <-> all_chars (fun c => negb (is_alnum c)) s = true.
Proof.
  unfold words. induction s as [|c r IH]; simpl; [tauto|].
  destruct (is_alnum c) eqn:Hc; simpl.
  - destruct (tokens r); simpl; split; discriminate.
  - exact IH.
Qed.

Lemma join_words_empty ws :
  (forall w, In w ws -> w <> "") -> join_words ws = "" -> ws = [].
Proof.
  destruct ws as [|w ws]; [reflexivity|]. intros Hgood H.
  destruct w as [|c w]; [now destruct (Hgood "" (or_introl eq_refl))|].
  simpl in H. rewrite append_cons in H. discriminate.
Qed.

(** X20: a listing row that is loaded has a title and a seller SKU that are
    stripped, not empty and not the text [nan]; its ASIN is never the text
    [nan]; its fingerprint is never [None]; and its fingerprint hash is
    [None] exactly when its title has no letter and no digit. *)
Theorem listing_of_row_loaded
    (sha256_hexdigest : string -> string)
    (item_name_cell seller_sku_cell asin_cell status_cell : string)
    (price : Z) (l : listing) :
  listing_of_row sha256_hexdigest item_name_cell seller_sku_cell asin_cell
                 status_cell price = Some l ->
  (item_name l <> "" /\ strip (item_name l) = item_name l
   /\ item_name l <> "nan")
  /\ (seller_sku l <> "" /\ strip (seller_sku l) = seller_sku l
      /\ seller_sku l <> "nan")
  /\ asin l <> Some "nan"
  /\ lower (strip status_cell) <> "inactive"
  /\ fingerprint l = Some (join_words (words (item_name l)))
  /\ (fingerprint_hash l = None <->
      all_chars (fun c => negb (is_alnum c)) (item_name l) = true).
Proof.
  unfold listing_of_row.
  destruct (truthy (strip item_name_cell)) eqn:Hn; cbn [negb orb];
    [|discriminate].
  destruct (String.eqb_spec (strip item_name_cell) "nan") as [|Hnn];
    [discriminate|].
  destruct (truthy (strip seller_sku_cell)) eqn:Hk; cbn [negb orb];
    [|discriminate].
  destruct (String.eqb_spec (strip seller_sku_cell) "nan") as [|Hkn];
    [discriminate|].
  destruct (String.eqb_spec (lower (strip status_cell)) "inactive") as [|Hst];
    [discriminate|].
  intros [= <-]. cbn [item_name seller_sku asin fingerprint fingerprint_hash].
  apply truthy_true in Hn, Hk.
  pose proof (fingerprint_title_words _ Hn) as Hfp.
  unfold fingerprint_title in Hfp. cbv zeta in Hfp. rewrite Hfp.
  repeat split; try assumption; try apply strip_idem.
  - destruct (String.eqb_spec (strip asin_cell) "nan"); congruence.
  - unfold hash_fingerprint.
    destruct (join_words (words (strip item_name_cell))) eqn:Hj;
      [|discriminate].
    intros _. apply words_nil. apply join_words_empty; [|exact Hj].
    intros w Hw. now apply (words_good (strip item_name_cell)).
  - intros H. apply words_nil in H. now rewrite H.
Qed.

Lemma listing_of_row_loaded_witness :
  fingerprint (Listing "DeWalt Drill!!" "DCD776" (Some "B00X") 9999
                 (Some "dewalt drill")
                 (hash_fingerprint (fun s => s) (Some "dewalt drill")))
  = Some (join_words (words "DeWalt Drill!!")).
Proof.
  refine (proj1 (proj2 (proj2 (proj2 (proj2
    (listing_of_row_loaded (fun s => s) " DeWalt Drill!! " "DCD776 " "B00X"
       "Active" 9999 _ _)))))).
  reflexivity.
Defined.

(** ** Component rows *)

Lemma brand_of_prefix prefix :
  In (default "Unknown" (BRAND_MAP !! prefix))
     ["Makita"; "DeWalt"; "TIMCO"; "Unknown"].
Proof.
  unfold BRAND_MAP. simpl list_to_map.
  rewrite !lookup_insert, lookup_empty.
  repeat (destruct (decide _); [simpl; tauto|]). simpl. tauto.
Qed.

Lemma component_of_row_loaded prefix stock_code_cell description_cell cost comp :
  component_of_row prefix stock_code_cell description_cell cost = Some comp ->
  (internal_sku comp <> "" /\ strip (internal_sku comp) = internal_sku comp
   /\ internal_sku comp <> "nan")
  /\ (description comp <> "nan"
      /\ strip (description comp) = description comp)
  /\ In (brand comp) ["Makita"; "DeWalt"; "TIMCO"; "Unknown"]
  /\ cost_ex_vat_pence comp = cost
  /\ is_active comp = true /\ source_file comp = prefix.
Proof.
  unfold component_of_row.
  destruct (truthy (strip stock_code_cell)) eqn:Hs; cbn [negb orb];
    [|discriminate].
  destruct (String.eqb_spec (strip stock_code_cell) "nan") as [|Hn];
    [discriminate|].
  intros [= <-].
  cbn [internal_sku description brand cost_ex_vat_pence is_active source_file].
  apply truthy_true in Hs.
  repeat split; try assumption; try apply strip_idem;
    try apply brand_of_prefix.
  - destruct (String.eqb_spec (strip description_cell) "nan");
      [discriminate|assumption].
  - destruct (String.eqb_spec (strip description_cell) "nan");
      [reflexivity|apply strip_idem].
Qed.

(** X21: every component loaded from the rows of a cost file has a stock
    code that is stripped, not empty and not the text [nan], a stripped
    description that is not the text [nan], one of the four brands, is
    active and carries the prefix of its file; and no more components are
    loaded than there are rows. *)
Theorem components_of_rows_loaded
    (prefix : string) (rows : list (string * string * Z)) :
  (List.length (components_of_rows prefix rows) <= List.length rows)%nat
  /\ forall comp, In comp (components_of_rows prefix rows) ->
       (internal_sku comp <> "" /\ strip (internal_sku comp) = internal_sku comp
        /\ internal_sku comp <> "nan")
       /\ (description comp <> "nan"
           /\ strip (description comp) = description comp)
       /\ In (brand comp) ["Makita"; "DeWalt"; "TIMCO"; "Unknown"]
       /\ is_active comp = true /\ source_file comp = prefix.
Proof.
  induction rows as [|[[sc d] cost] rows [IHlen IH]]; simpl.
  - split; [lia|tauto].
  - destruct (component_of_row prefix sc d cost) as [c|] eqn:Hc; simpl.
    + split; [lia|]. intros comp [<-|Hin]; [|now apply IH].
      destruct (component_of_row_loaded _ _ _ _ _ Hc)
        as (? & ? & ? & _ & ? & ?). auto.
    + split; [lia|exact IH].
Qed.

(** ** Aggregator: every answered reference is linked *)

Lemma match_parsed_complete parsed all_components pattern qty sku :
  (forall comp, In comp all_components -> internal_sku comp <> "") ->
  In (pattern, qty) parsed ->
  match_component_to_import pattern all_components = Some sku ->
  In (sku, qty) (match_parsed parsed all_components).
Proof.
  intros Hskus Hin Hm.
  assert (forall p s, match_component_to_import p all_components = Some s ->
                      truthy s = true) as Htruthy.
  { intros p s Hs. apply match_component_to_import_sound_aux in Hs
      as (comp & Hc & <- & _). apply truthy_true. auto. }
  induction parsed as [|[p q] parsed IH]; simpl in *; [tauto|].
  destruct (match_component_to_import p all_components) as [m|] eqn:Hp.
  - rewrite (Htruthy p m Hp). destruct Hin as [[= -> ->]|Hin].
    + left. congruence.
    + right. auto.
  - destruct Hin as [[= -> ->]|Hin]; [congruence|auto].
Qed.

(** X22: when no catalog entry has an empty SKU, every parsed reference of
    a listing that the matcher answers is linked, with the answered SKU and
    the reference's quantity. *)
Theorem create_boms_and_listings_links_complete
    (listings : list listing) (all_components : list component)
    (l : listing) (pattern sku : string) (qty : N) :
  (forall comp, In comp all_components -> internal_sku comp <> "") ->
  In l listings ->
  In (pattern, qty) (parse_compound_sku (Some (seller_sku l))) ->
  match_component_to_import pattern all_components = Some sku ->
  In {| bom_sku := seller_sku l; component_sku := sku; qty_required := qty |}
     (bom_components_list (create_boms_and_listings listings all_components)).
Proof.
  intros Hskus Hl Hin Hm. unfold create_boms_and_listings.
  rewrite process_listings_from. simpl. apply in_flat_map. exists l.
  split; [exact Hl|]. unfold links_of. apply in_map_iff.
  exists (sku, qty). split; [reflexivity|].
  pose proof (match_parsed_complete _ _ _ _ _ Hskus Hin Hm) as Hmp.
  unfold matched_components.
  destruct (match_parsed _ all_components) as [|m ms]; [destruct Hmp|exact Hmp].
Qed.

Lemma create_boms_and_listings_links_complete_witness :
  In {| bom_sku := "Q+2xbl1850"; component_sku := "BL1850"; qty_required := 2 |}
     (bom_components_list
        (create_boms_and_listings [Sample.row "Other" "Q+2xbl1850"]
           [Sample.entry "MAKDJR186" ""; Sample.entry "BL1850" ""])).
Proof.
  apply (create_boms_and_listings_links_complete
           [Sample.row "Other" "Q+2xbl1850"]
           [Sample.entry "MAKDJR186" ""; Sample.entry "BL1850" ""]
           (Sample.row "Other" "Q+2xbl1850") "bl1850" "BL1850" 2%N).
  - intros comp [<-|[<-|[]]]; discriminate.
  - simpl. auto.
  - vm_compute. right. left. reflexivity.
  - reflexivity.
Defined.

(** ** SQL text: quoted fields *)

Lemma is_quote_eq c : is_quote c = true -> c = "'"%char.
Proof. apply Ascii.eqb_eq. Qed.

Lemma sql_unquote_replace_quote s : sql_unquote (replace_quote s) = Some s.
Proof.
  induction s as [|c r IH]; [reflexivity|].
  simpl replace_quote. destruct (is_quote c) eqn:Hc.
  - apply is_quote_eq in Hc as ->. simpl. now rewrite IH.
  - simpl. now rewrite Hc, IH.
Qed.

Lemma length_slice_to n s : (String.length (slice_to n s) <= n)%nat.
Proof.
  revert s. induction n as [|n IH]; intros [|c r]; simpl; try lia.
  specialize (IH r). lia.
Qed.

Lemma slice_to_short n s : (String.length s <= n)%nat -> slice_to n s = s.
Proof.
  revert s. induction n as [|n IH]; intros [|c r]; simpl; try reflexivity;
    try lia.
  intros H. rewrite IH; [reflexivity|lia].
Qed.

Lemma slice_to_app a b n :
  slice_to (String.length a + n) (a ++ b) = a ++ slice_to n b.
Proof.
  induction a as [|c a IH]; [reflexivity|].
  rewrite !append_cons. simpl. now rewrite IH.
Qed.

Lemma replace_quote_plain s :
  all_chars (fun c => negb (is_quote c)) s = true -> replace_quote s = s.
Proof.
  induction s as [|c r IH]; simpl; [reflexivity|].
  rewrite andb_true_iff, negb_true_iff. intros [-> Hr]. now rewrite (IH Hr).
Qed.

Lemma replace_quote_app a b :
  replace_quote (a ++ b) = replace_quote a ++ replace_quote b.
Proof.
  induction a as [|c a IH]; [reflexivity|].
  rewrite append_cons. simpl. rewrite IH. now destruct (is_quote c).
Qed.

Lemma sql_unquote_plain_app a b :
  all_chars (fun c => negb (is_quote c)) a = true ->
  sql_unquote (a ++ b) = option_map (String.append a) (sql_unquote b).
Proof.
  induction a as [|c a IH]; intros Ha.
  - rewrite append_empty_l. now destruct (sql_unquote b).
  - simpl in Ha. apply andb_true_iff in Ha as [Hc Ha].
    apply negb_true_iff in Hc. rewrite append_cons. simpl.
    rewrite Hc, (IH Ha). now destruct (sql_unquote b).
Qed.

(** X23: doubling the quotes writes a text as the body of a SQL string
    literal that stands for that text.  So are written the SKU and brand of
    a component, the SKUs of a link, the bundle SKU of a BOM and its
    description, which is the item title cut to 500 characters beforehand;
    the description of a component is written whole, and stands for itself,
    when its quoted form has at most 500 characters. *)
Theorem sql_fields_read_back
    (l : listing) (comp : component) (bc : bom_component) :
  (forall s, sql_unquote (replace_quote s) = Some s)
  /\ (let '(sku, desc) := bom_sql_fields (bom_of l) in
      sql_unquote sku = Some (seller_sku l)
      /\ sql_unquote desc = Some (slice_to 500 (item_name l))
      /\ (String.length (slice_to 500 (item_name l)) <= 500)%nat)
  /\ (let '(bom_sku_sql, comp_sku_sql) := bom_component_sql_fields bc in
      sql_unquote bom_sku_sql = Some (bom_sku bc)
      /\ sql_unquote comp_sku_sql = Some (component_sku bc))
  /\ (let '(sku, desc, brand_sql) := component_sql_fields comp in
      sql_unquote sku = Some (internal_sku comp)
      /\ sql_unquote brand_sql = Some (brand comp)
      /\ (String.length desc <= 500)%nat
      /\ ((String.length (replace_quote (description comp)) <= 500)%nat ->
          sql_unquote desc = Some (description comp))).
Proof.
  split; [apply sql_unquote_replace_quote|]. split; [|split].
  - unfold bom_sql_fields, bom_of. cbn [bundle_sku bom_description].
    rewrite !sql_unquote_replace_quote. repeat split.
    + f_equal. now destruct (item_name l).
    + apply length_slice_to.
  - unfold bom_component_sql_fields.
    now rewrite !sql_unquote_replace_quote.
  - unfold component_sql_fields. rewrite !sql_unquote_replace_quote.
    repeat split; [apply length_slice_to|].
    intros H. rewrite slice_to_short by exact H.
    apply sql_unquote_replace_quote.
Qed.

(** X24: the description of a component is cut to 500 characters after its
    quotes are doubled: when its first quote is its 500th character the cut
    falls between the two quotes written for it, and the field ends with a
    quote that is not doubled. *)
Theorem component_description_cut_in_quote
    (comp : component) (before after : string) :
  description comp = before ++ String "'" after ->
  String.length before = 499%nat ->
  all_chars (fun c => negb (is_quote c)) before = true ->
  let '(_, desc, _) := component_sql_fields comp in
  desc = before ++ "'" /\ sql_unquote desc = None.
Proof.
  intros Hd Hlen Hplain. unfold component_sql_fields. rewrite Hd.
  change (String "'" after) with ("'" ++ after).
  rewrite replace_quote_app, (replace_quote_plain before Hplain).
  rewrite replace_quote_app. change (replace_quote "'") with "''".
  change 500%nat with (499 + 1)%nat. rewrite <- Hlen, slice_to_app.
  split; [reflexivity|].
  change (slice_to 1 ("''" ++ replace_quote after)) with "'".
  now rewrite (sql_unquote_plain_app before "'" Hplain).
Qed.

Lemma component_description_cut_in_quote_witness :
  let '(_, desc, _) :=
    component_sql_fields
      (Sample.entry "ABC" (repeat_char "a" 499 ++ String "'" "s")) in
  desc = repeat_char "a" 499 ++ "'" /\ sql_unquote desc = None.
Proof.
  apply (component_description_cut_in_quote
           (Sample.entry "ABC" (repeat_char "a" 499 ++ String "'" "s"))
           (repeat_char "a" 499) "s");
    vm_compute; reflexivity.
Defined.

(** ** Parser: how many references *)

Lemma length_re_split s :
  List.length (re_split s) = S (count_chars is_joiner s).
Proof.
  induction s as [|c r IH]; simpl; [reflexivity|].
  destruct (is_joiner c); simpl; [now rewrite IH|].
  destruct (re_split_cons r) as (h & t & E). rewrite E in IH |- *.
  exact IH.
Qed.

Lemma length_parse_parts parts :
  (List.length (parse_parts parts) <= List.length parts)%nat.
Proof.
  induction parts as [|p parts IH]; simpl; [lia|].
  destruct (truthy (strip p)); simpl; lia.
Qed.

(** X25: the parser returns at most one reference more than the input has
    joiners, and exactly one reference for an input without joiner that is
    not blank. *)
Theorem parse_compound_sku_count (sku : string) :
  (List.length (parse_compound_sku (Some sku))
   <= S (count_chars is_joiner sku))%nat
  /\ (count_chars is_joiner sku = 0%nat -> strip sku <> "" ->
      parse_compound_sku (Some sku) = [parse_part (strip sku)]).
Proof.
  rewrite parse_compound_sku_split. split.
  - rewrite <- length_re_split. apply length_parse_parts.
  - intros Hcount Hne. rewrite re_split_no_joiner.
    + simpl. apply truthy_true in Hne. now rewrite Hne.
    + clear Hne. induction sku as [|c r IH]; simpl in *; [reflexivity|].
      destruct (is_joiner c); [discriminate|]. now apply IH.
Qed.

Lemma parse_compound_sku_count_witness :
  parse_compound_sku (Some " DCD776 ") = [parse_part (strip " DCD776 ")].
Proof.
  apply (proj2 (parse_compound_sku_count " DCD776 "));
    [reflexivity|discriminate].
Defined.
